(** * A shallow embedding of the point-cloud network of [sgp_dl_tutorial.ipynb]

    The notebook defines two classes, [PointNetLayer] (a subclass of
    PyTorch Geometric's [MessagePassing] with [aggr='max']) and [PointNet]
    (two such layers, a global max pooling and a linear classifier).

    Tensors are modelled as lists of rows over an abstract scalar type.  The
    scalar operations are an interface ([Scalar]), with the integers as one
    instance and the integers with a NaN as another.  The laws that
    statements assume are laws of [max] and of the order only, and are
    named in each statement: [ScalarOrder] for scalars that are totally
    ordered, [NaNOrder] for scalars with a NaN, where the order laws hold of
    numbers only.  No law of addition or multiplication is assumed
    anywhere.  The framework operations the notebook calls
    ([torch.index_select], [torch.cat], [torch.nn.Linear], [Tensor.relu],
    [scatter] with [reduce='max'], [global_max_pool]) are modelled with the
    errors they raise.  Sizes are unbounded: that an allocation can fail
    for want of memory is not modelled.

    The forward pass is given three times: as a function of parameters and
    inputs ([PointNet_forward]), in which a linear map adds up the products
    of a row from the left; as the same function with the routine that
    adds them up left open ([PointNet_forward_k]), since the framework's
    routine, and with it the rounding of the sum, can depend on the shape
    of the input; and as the program it is, run on references into a store
    ([PointNet_forward_s]). *)

From Stdlib Require Import List ZArith Lia Bool Permutation FinFun.
From Stdlib Require QArith.
Import ListNotations.

Set Implicit Arguments.

(** ** Errors raised by the framework *)

Inductive exn : Type :=
| ValueError
| IndexError
| RuntimeError.

Definition result (A : Type) : Type := (exn + A)%type.

Definition ok {A : Type} (a : A) : result A := inr a.
Definition raise {A : Type} (e : exn) : result A := inl e.

Definition bind {A B : Type} (m : result A) (k : A -> result B) : result B :=
  match m with
  | inl e => inl e
  | inr a => k a
  end.

Notation "x <- m ;; k" := (bind m (fun x => k))
  (at level 61, m at next level, right associativity).

Definition check (b : bool) (e : exn) : result unit :=
  if b then ok tt else raise e.

Definition is_ok {A : Type} (m : result A) : bool :=
  match m with inr _ => true | inl _ => false end.

(** ** Scalars *)

Class Scalar (T : Type) : Type := {
  szero : T;
  sadd : T -> T -> T;
  ssub : T -> T -> T;
  smul : T -> T -> T;
  smax : T -> T -> T;
  sle : T -> T -> Prop
}.

Class ScalarOrder (T : Type) {Sc : Scalar T} : Prop := {
  sle_refl : forall a : T, sle a a;
  sle_trans : forall a b c : T, sle a b -> sle b c -> sle a c;
  smax_comm : forall a b : T, smax a b = smax b a;
  smax_assoc : forall a b c : T, smax a (smax b c) = smax (smax a b) c;
  smax_ub : forall a b : T, sle a (smax a b)
}.

Arguments ScalarOrder T {Sc}.

#[export] Instance Scalar_Z : Scalar Z := {
  szero := 0%Z;
  sadd := Z.add;
  ssub := Z.sub;
  smul := Z.mul;
  smax := Z.max;
  sle := Z.le
}.

#[export] Instance ScalarOrder_Z : ScalarOrder Z.
Proof.
  constructor; simpl; intros; lia.
Defined.

(** ** Generic list helpers *)

Fixpoint zip_with {A B C : Type} (f : A -> B -> C) (l : list A) (l' : list B) : list C :=
  match l, l' with
  | a :: t, b :: t' => f a b :: zip_with f t t'
  | _, _ => []
  end.

(** [0 <= i < n], the bounds test every indexing kernel performs. *)
Definition in_range (n : nat) (i : Z) : bool :=
  (0 <=? i)%Z && (i <? Z.of_nat n)%Z.

Definition list_max_Z (l : list Z) (d : Z) : Z := fold_left Z.max l d.

Section Model.

Context {T : Type} {Sc : Scalar T}.

(** ** Tensors

    A two-dimensional tensor of shape [[nrows, ncols]]; the column count is
    kept apart from the rows because tensors with no rows still have one. *)

Record Tensor : Type := mkTensor {
  ncols : nat;
  rows : list (list T)
}.

Definition nrows (t : Tensor) : nat := length (rows t).

Definition tensor_wf (t : Tensor) : bool :=
  forallb (fun r => length r =? ncols t) (rows t).

Definition has_shape (t : Tensor) (n c : nat) : Prop :=
  nrows t = n /\ ncols t = c /\ tensor_wf t = true.

Definition row (t : Tensor) (i : nat) : list T := nth i (rows t) [].

(** An edge list: the [[2, E]] tensor [edge_index], column by column;
    [fst] is [edge_index[0]] (the source [j]), [snd] is [edge_index[1]]
    (the target [i]). *)
Definition EdgeIndex : Type := list (Z * Z).

(** *** [torch.index_select(src, 0, index)]: an [IndexError] on any index
    outside [[0, nrows)], negative ones included. *)
Definition index_select (src : Tensor) (index : list Z) : result Tensor :=
  if forallb (in_range (nrows src)) index
  then ok (mkTensor (ncols src) (map (fun i => row src (Z.to_nat i)) index))
  else raise IndexError.

(** *** [a - b] on tensors of equal shape (the only case [message] meets:
    both operands are gathered from [pos] along the same edge list). *)
Definition tensor_sub (a b : Tensor) : result Tensor :=
  if (nrows a =? nrows b) && (ncols a =? ncols b)
  then ok (mkTensor (ncols a) (zip_with (zip_with ssub) (rows a) (rows b)))
  else raise RuntimeError.

(** *** [torch.cat([a, b], dim=-1)] *)
Definition cat (a b : Tensor) : result Tensor :=
  if nrows a =? nrows b
  then ok (mkTensor (ncols a + ncols b) (zip_with (@app T) (rows a) (rows b)))
  else raise RuntimeError.

(** *** [Tensor.relu()] *)
Definition srelu (x : T) : T := smax szero x.

Definition relu (t : Tensor) : Tensor :=
  mkTensor (ncols t) (map (map srelu) (rows t)).

(** ** [torch.nn.Linear] *)

Record Linear : Type := mkLinear {
  in_features : nat;
  out_features : nat;
  weight : list (list T);   (* shape [out_features, in_features] *)
  bias : list T             (* shape [out_features] *)
}.

Definition Linear_wf (l : Linear) : bool :=
  (length (weight l) =? out_features l)
  && forallb (fun w => length w =? in_features l) (weight l)
  && (length (bias l) =? out_features l).

Definition dot (w x : list T) : T :=
  fold_left sadd (zip_with smul x w) szero.

Definition linear_row (l : Linear) (x : list T) : list T :=
  zip_with (fun w b => sadd (dot w x) b) (weight l) (bias l).

(** [Linear.forward]: [x @ weight.T + bias], a [RuntimeError] when the last
    dimension of [x] is not [in_features]. *)
Definition Linear_forward (l : Linear) (x : Tensor) : result Tensor :=
  if ncols x =? in_features l
  then ok (mkTensor (out_features l) (map (linear_row l) (rows x)))
  else raise RuntimeError.

(** *** Construction.  The initial values come from the framework's random
    generator, modelled as a stream that construction consumes. *)
Definition Rng : Type := nat -> T.

Definition draw (n : nat) (g : Rng) : list T * Rng :=
  (map g (seq 0 n), fun k => g (n + k)).

Fixpoint draw_rows (n c : nat) (g : Rng) : list (list T) * Rng :=
  match n with
  | O => ([], g)
  | S n' =>
      let (r, g1) := draw c g in
      let (rs, g2) := draw_rows n' c g1 in
      (r :: rs, g2)
  end.

(** [Linear(in_features, out_features)]: the weight is allocated with
    [torch.empty((out_features, in_features))], which raises a
    [RuntimeError] on a negative dimension and accepts zero.  (It also
    raises when the tensor is too large to allocate; there is no such
    limit here.) *)
Definition Linear_init (in_f out_f : Z) (g : Rng) : result (Linear * Rng) :=
  _ <- check ((0 <=? in_f)%Z && (0 <=? out_f)%Z) RuntimeError ;;
  let i := Z.to_nat in_f in
  let o := Z.to_nat out_f in
  let (w, g1) := draw_rows o i g in
  let (b, g2) := draw o g1 in
  ok (mkLinear i o w b, g2).

(** ** [scatter(src, index, dim=0, dim_size, reduce='max')]

    PyTorch Geometric reduces into [src.new_zeros(size)] with
    [scatter_reduce_(0, index, src, 'amax', include_self=False)]: a row
    that receives nothing keeps its zeros, a row that receives something
    is the element-wise maximum of what it receives. *)

Definition vmax (a b : list T) : list T := zip_with smax a b.

Definition amax (dflt : list T) (l : list (list T)) : list T :=
  match l with
  | [] => dflt
  | m :: ms => fold_left vmax ms m
  end.

Definition received (index : list Z) (src : list (list T)) (i : nat) : list (list T) :=
  map snd (filter (fun p => (fst p =? Z.of_nat i)%Z) (combine index src)).

(** [broadcast(index, src, dim)]: [index.view(-1, 1).expand_as(src)]; an
    index of length one expands along the rows. *)
Definition broadcast (index : list Z) (src : Tensor) : result (list Z) :=
  if length index =? nrows src then ok index
  else match index with
       | [i] => ok (repeat i (nrows src))
       | _ => raise RuntimeError
       end.

Definition scatter_max (src : Tensor) (index : list Z) (dim_size : nat) : result Tensor :=
  index' <- broadcast index src ;;
  _ <- check (forallb (in_range dim_size) index') RuntimeError ;;
  ok (mkTensor (ncols src)
        (map (fun i => amax (repeat szero (ncols src)) (received index' (rows src) i))
             (seq 0 dim_size))).

(** [dim_size = int(index.max()) + 1 if index.numel() > 0 else 0]; the
    output of [scatter] has that many rows, however many that is. *)
Definition infer_dim_size (index : list Z) : nat :=
  match index with
  | [] => O
  | i :: t => Z.to_nat (list_max_Z t i + 1)
  end.

(** *** [global_max_pool(x, batch)] *)
Definition global_max_pool (x : Tensor) (batch : option (list Z)) : result Tensor :=
  match batch with
  | None =>
      (* x.max(dim=-2, keepdim=True)[0]: an IndexError when there is no
         row to reduce *)
      match rows x with
      | [] => raise IndexError
      | r :: rs => ok (mkTensor (ncols x) [fold_left vmax rs r])
      end
  | Some index => scatter_max x index (infer_dim_size index)
  end.

(** ** [MessagePassing.propagate] with [flow='source_to_target'] and
    [aggr='max'], for a [message] hook with the signature
    [(h_i, h_j, pos_j, pos_i)].

    [collect] gathers the per-edge tensors in the order of that signature:
    each argument first fixes or checks the node count ([_set_size], a
    [ValueError] on disagreement), then is lifted along the edges
    ([index_select], an [IndexError] on an index out of range). *)

Definition Message : Type := Tensor -> Tensor -> Tensor -> Tensor -> result Tensor.

Definition collect (edge_index : EdgeIndex) (h pos : Tensor)
  : result (Tensor * Tensor * Tensor * Tensor) :=
  let j := map fst edge_index in
  let i := map snd edge_index in
  h_i <- index_select h i ;;
  h_j <- index_select h j ;;
  _ <- check (nrows pos =? nrows h) ValueError ;;
  pos_j <- index_select pos j ;;
  pos_i <- index_select pos i ;;
  ok (h_i, h_j, pos_j, pos_i).

Definition propagate (message : Message) (edge_index : EdgeIndex) (h pos : Tensor)
  : result Tensor :=
  c <- collect edge_index h pos ;;
  let '(h_i, h_j, pos_j, pos_i) := c in
  msg <- message h_i h_j pos_j pos_i ;;
  scatter_max msg (map snd edge_index) (nrows h).

(** ** [PointNetLayer] *)

(** [self.mlp = Sequential(Linear, ReLU(), Linear)]: entries 0 and 2. *)
Record PointNetLayer : Type := mkPointNetLayer {
  mlp_0 : Linear;
  mlp_2 : Linear
}.

Definition PointNetLayer_init (in_channels out_channels : Z) (g : Rng)
  : result (PointNetLayer * Rng) :=
  r0 <- Linear_init (in_channels + 3) out_channels g ;;
  r2 <- Linear_init out_channels out_channels (snd r0) ;;
  ok (mkPointNetLayer (fst r0) (fst r2), snd r2).

Definition mlp (l : PointNetLayer) (x : Tensor) : result Tensor :=
  y <- Linear_forward (mlp_0 l) x ;;
  Linear_forward (mlp_2 l) (relu y).

Definition PointNetLayer_message (l : PointNetLayer) : Message :=
  fun h_i h_j pos_j pos_i =>
    d <- tensor_sub pos_j pos_i ;;
    edge_feat <- cat h_j d ;;
    mlp l edge_feat.

Definition PointNetLayer_forward (l : PointNetLayer) (h pos : Tensor) (edge_index : EdgeIndex)
  : result Tensor :=
  propagate (PointNetLayer_message l) edge_index h pos.

(** ** [PointNet] *)

Record PointNet : Type := mkPointNet {
  conv1 : PointNetLayer;
  conv2 : PointNetLayer;
  classifier : Linear;
  training : bool          (* [torch.nn.Module.training] *)
}.

(** [PointNet()]; [num_classes] is the notebook's global
    [dataset.num_classes]. *)
Definition PointNet_init (num_classes : Z) (g : Rng) : result (PointNet * Rng) :=
  r1 <- PointNetLayer_init 3 32 g ;;
  r2 <- PointNetLayer_init 32 32 (snd r1) ;;
  r3 <- Linear_init 32 num_classes (snd r2) ;;
  ok (mkPointNet (fst r1) (fst r2) (fst r3) true, snd r3).

(** [model.train()] and [model.eval()] *)
Definition Module_train (m : PointNet) : PointNet :=
  mkPointNet (conv1 m) (conv2 m) (classifier m) true.

Definition Module_eval (m : PointNet) : PointNet :=
  mkPointNet (conv1 m) (conv2 m) (classifier m) false.

(** [PointNet.forward] up to and including the global pooling. *)
Definition PointNet_pooled (m : PointNet) (pos : Tensor) (edge_index : EdgeIndex)
  (batch : option (list Z)) : result Tensor :=
  h <- PointNetLayer_forward (conv1 m) pos pos edge_index ;;
  let h := relu h in
  h <- PointNetLayer_forward (conv2 m) h pos edge_index ;;
  let h := relu h in
  global_max_pool h batch.

Definition PointNet_forward (m : PointNet) (pos : Tensor) (edge_index : EdgeIndex)
  (batch : option (list Z)) : result Tensor :=
  h <- PointNet_pooled m pos edge_index batch ;;
  Linear_forward (classifier m) h.

(** ** What one layer computes, edge by edge and row by row

    The closed forms below are what the tensor program above is shown to
    compute ([PointNetLayer_forward_valid]); the claims are then read off
    them. *)

(** The edge feature [cat([h_j, pos_j - pos_i])] of one edge [(j, i)]. *)
Definition edge_feat (h pos : Tensor) (e : Z * Z) : list T :=
  row h (Z.to_nat (fst e))
  ++ zip_with ssub (row pos (Z.to_nat (fst e))) (row pos (Z.to_nat (snd e))).

(** [Linear -> ReLU -> Linear] on one row. *)
Definition mlp_row (l : PointNetLayer) (x : list T) : list T :=
  linear_row (mlp_2 l) (map srelu (linear_row (mlp_0 l) x)).

Definition edge_message (l : PointNetLayer) (h pos : Tensor) (e : Z * Z) : list T :=
  mlp_row l (edge_feat h pos e).

(** The edges whose target is [i], in the order of the edge list. *)
Definition incoming (edge_index : EdgeIndex) (i : nat) : EdgeIndex :=
  filter (fun e => (snd e =? Z.of_nat i)%Z) edge_index.

Definition layer_row (l : PointNetLayer) (h pos : Tensor) (edge_index : EdgeIndex)
  (i : nat) : list T :=
  amax (repeat szero (out_features (mlp_2 l)))
       (map (edge_message l h pos) (incoming edge_index i)).

Definition layer_out (l : PointNetLayer) (h pos : Tensor) (edge_index : EdgeIndex) : Tensor :=
  mkTensor (out_features (mlp_2 l))
           (map (layer_row l h pos edge_index) (seq 0 (nrows h))).

Definition edges_in_range (n : nat) (edge_index : EdgeIndex) : bool :=
  forallb (fun e => in_range n (fst e) && in_range n (snd e)) edge_index.

(** The inputs on which a layer's forward pass goes through. *)
Definition layer_valid (l : PointNetLayer) (h pos : Tensor) (edge_index : EdgeIndex) : bool :=
  edges_in_range (nrows h) edge_index
  && (nrows pos =? nrows h)
  && (ncols h + ncols pos =? in_features (mlp_0 l))
  && (out_features (mlp_0 l) =? in_features (mlp_2 l)).

(** A layer with the shapes [PointNetLayer(in_channels, out_channels)]
    allocates; an optimizer step keeps them. *)
Definition PointNetLayer_wf (l : PointNetLayer) (in_channels out_channels : nat) : Prop :=
  Linear_wf (mlp_0 l) = true /\ Linear_wf (mlp_2 l) = true
  /\ in_features (mlp_0 l) = in_channels + 3
  /\ out_features (mlp_0 l) = out_channels
  /\ in_features (mlp_2 l) = out_channels
  /\ out_features (mlp_2 l) = out_channels.

Definition PointNet_wf (m : PointNet) (num_classes : nat) : Prop :=
  PointNetLayer_wf (conv1 m) 3 32 /\ PointNetLayer_wf (conv2 m) 32 32
  /\ Linear_wf (classifier m) = true
  /\ in_features (classifier m) = 32
  /\ out_features (classifier m) = num_classes.

(** ** Vocabulary of the statements *)




(** A batch vector for [B] objects: ids [0 .. B-1], each owning a point. *)
Definition batch_of (B : nat) (batch : list Z) : Prop :=
  (forall b, In b batch -> in_range B b = true)
  /\ (forall b, b < B -> In (Z.of_nat b) batch).

(** [model(pos, edge_index, batch)]: [Module.__call__] runs [forward] (the
    notebook registers no hook).  The module object is handed back with
    the result: [forward] only reads [self.conv1], [self.conv2] and
    [self.classifier] and assigns nothing (see [Module_call_s] for the call
    in a store). *)
Definition Module_call (m : PointNet) (pos : Tensor) (edge_index : EdgeIndex)
  (batch : option (list Z)) : PointNet * result Tensor :=
  (m, PointNet_forward m pos edge_index batch).

(** The per-point features [PointNet.forward] pools: two layers, each
    followed by [relu]. *)
Definition point_features (m : PointNet) (pos : Tensor) (edge_index : EdgeIndex) : Tensor :=
  relu (layer_out (conv2 m) (relu (layer_out (conv1 m) pos pos edge_index)) pos edge_index).


End Model.

Arguments Tensor T : clear implicits.
Arguments Linear T : clear implicits.
Arguments PointNetLayer T : clear implicits.
Arguments PointNet T : clear implicits.
Arguments Rng T : clear implicits.

(** ** Evaluation: [model.parameters()], [test()] and the prediction cell *)

(** The strict comparison [argmax] decides with, and what ties it to the
    order: it is the strict part of a total order. *)
Class ScalarCmp (T : Type) : Type := {
  sltb : T -> T -> bool
}.

Class ScalarCmpOrder (T : Type) {Sc : Scalar T} {Cmp : ScalarCmp T} : Prop := {
  sltb_sle : forall a b : T, sltb a b = true -> sle a b;
  sltb_total : forall a b : T, sltb a b = false -> sle b a
}.

Arguments ScalarCmpOrder T {Sc Cmp}.

(** [max] of a value with itself is that value. *)
Class ScalarIdem (T : Type) {Sc : Scalar T} : Prop := {
  smax_idem : forall a : T, smax a a = a
}.

Arguments ScalarIdem T {Sc}.

#[export] Instance ScalarCmp_Z : ScalarCmp Z := {
  sltb := Z.ltb
}.

#[export] Instance ScalarCmpOrder_Z : ScalarCmpOrder Z.
Proof.
  constructor; simpl; intros a b H; [apply Z.ltb_lt in H | apply Z.ltb_ge in H]; lia.
Defined.

#[export] Instance ScalarIdem_Z : ScalarIdem Z.
Proof.
  constructor; simpl; intros; lia.
Defined.

(** ** Scalars with NaN

    Floating-point numbers have a value, NaN, that no comparison holds of
    and that [max] (in [relu], in the [amax] reduction of [scatter] and in
    [Tensor.max]) hands on.  [is_nan] tells it apart; [NaNOrder] are the
    laws of the comparison and of the maximum in its presence: the order
    laws are asked of numbers only. *)
Class ScalarNaN (T : Type) : Type := {
  is_nan : T -> bool
}.

Class NaNOrder (T : Type) {Sc : Scalar T} {Sn : ScalarNaN T} : Prop := {
  szero_number : is_nan szero = false;
  smax_nan : forall a b : T, is_nan (smax a b) = is_nan a || is_nan b;
  nle_refl : forall a : T, is_nan a = false -> sle a a;
  nle_trans : forall a b c : T, sle a b -> sle b c -> sle a c;
  nmax_comm : forall a b : T, smax a b = smax b a;
  nmax_assoc : forall a b c : T, smax a (smax b c) = smax (smax a b) c;
  nmax_ub : forall a b : T, is_nan a = false -> is_nan b = false -> sle a (smax a b)
}.

Arguments NaNOrder T {Sc Sn}.

(** The integers with a NaN: every operation hands NaN on, and no
    comparison holds of it. *)
Inductive znan : Type :=
| NaN
| Num (z : Z).

Definition znan_lift (f : Z -> Z -> Z) (a b : znan) : znan :=
  match a, b with
  | Num x, Num y => Num (f x y)
  | _, _ => NaN
  end.

Definition znan_le (a b : znan) : Prop :=
  match a, b with
  | Num x, Num y => (x <= y)%Z
  | _, _ => False
  end.

#[export] Instance Scalar_znan : Scalar znan := {
  szero := Num 0;
  sadd := znan_lift Z.add;
  ssub := znan_lift Z.sub;
  smul := znan_lift Z.mul;
  smax := znan_lift Z.max;
  sle := znan_le
}.

#[export] Instance ScalarNaN_znan : ScalarNaN znan := {
  is_nan := fun a => match a with NaN => true | Num _ => false end
}.

#[export] Instance NaNOrder_znan : NaNOrder znan.
Proof.
  constructor.
  - reflexivity.
  - intros [|x] [|y]; reflexivity.
  - intros [|x] H; [discriminate | simpl; lia].
  - intros [|x] [|y] [|z]; simpl; try tauto; lia.
  - intros [|x] [|y]; simpl; try reflexivity. now rewrite Z.max_comm.
  - intros [|x] [|y] [|z]; simpl; try reflexivity. now rewrite Z.max_assoc.
  - intros [|x] [|y]; simpl; try discriminate. intros _ _. lia.
Defined.

Section NaNVocabulary.

Context {T : Type} {Sc : Scalar T} {Sn : ScalarNaN T}.

(** [0 <= x], or [x] is NaN. *)
Definition nonneg_or_nan (x : T) : Prop := is_nan x = true \/ sle szero x.


(** A number that is at least zero. *)
Definition nonneg_number (x : T) : Prop := is_nan x = false /\ sle szero x.

(** A tensor without NaN. *)
Definition numbers (rs : list (list T)) : Prop :=
  Forall (Forall (fun x => is_nan x = false)) rs.

End NaNVocabulary.

Section Evaluation.

Context {T : Type} {Sc : Scalar T} {Cmp : ScalarCmp T}.

(** *** [model.parameters()]: the weight and bias of every [Linear], in
    registration order, each flattened. *)
Definition Linear_parameters (l : Linear T) : list (list T) :=
  [concat (weight l); bias l].

Definition PointNetLayer_parameters (l : PointNetLayer T) : list (list T) :=
  Linear_parameters (mlp_0 l) ++ Linear_parameters (mlp_2 l).

Definition Module_parameters (m : PointNet T) : list (list T) :=
  PointNetLayer_parameters (conv1 m)
  ++ PointNetLayer_parameters (conv2 m)
  ++ Linear_parameters (classifier m).

Definition numel (ps : list (list T)) : nat :=
  list_sum (map (@length T) ps).

(** *** [Tensor.argmax(dim=-1)]: per row, the index of the first maximal
    entry; it raises when the reduced dimension is empty. *)
Fixpoint argmax_from (best : T) (besti i : nat) (r : list T) : nat :=
  match r with
  | [] => besti
  | x :: t =>
      if sltb best x then argmax_from x i (S i) t
      else argmax_from best besti (S i) t
  end.

Definition argmax_row (r : list T) : nat :=
  match r with
  | [] => O
  | x :: t => argmax_from x 0 1 t
  end.

Definition argmax (t : Tensor T) : result (list Z) :=
  if ncols t =? 0 then raise IndexError
  else ok (map (fun r => Z.of_nat (argmax_row r)) (rows t)).

(** *** [int((pred == y).sum())] on one-dimensional tensors: equal lengths
    compare entry by entry, a length of one broadcasts, anything else
    raises. *)
Definition count_eq (a b : list Z) : nat :=
  length (filter (fun p => (fst p =? snd p)%Z) (combine a b)).

Definition eq_sum (pred y : list Z) : result nat :=
  if length pred =? length y then ok (count_eq pred y)
  else match pred, y with
       | [p], _ => ok (count_eq (repeat p (length y)) y)
       | _, [v] => ok (count_eq pred (repeat v (length pred)))
       | _, _ => raise RuntimeError
       end.

(** *** [Tensor.item()]: the value of a one-element tensor. *)
Definition item (t : list Z) : result Z :=
  match t with
  | [x] => ok x
  | _ => raise RuntimeError
  end.

(** *** [names[k]] on a Python list: a negative index counts from the end,
    an index outside [[-len, len)] raises [IndexError]. *)
Definition getitem {A : Type} (names : list A) (k : Z) : result A :=
  let n := Z.of_nat (length names) in
  let k' := if (k <? 0)%Z then (k + n)%Z else k in
  match nth_error names (Z.to_nat k') with
  | Some a => if (0 <=? k')%Z then ok a else raise IndexError
  | None => raise IndexError
  end.

(** What a loader yields: one object, or a batch of objects ([batch] is
    [None] for a single [Data] object); [y] holds one label per object. *)
Record Data : Type := mkData {
  Data_pos : Tensor T;
  Data_edge_index : EdgeIndex;
  Data_batch : option (list Z);
  Data_y : list Z
}.

(** *** [test()].  The loop over [test_loader], with its accumulator. *)
Fixpoint test_loop (m : PointNet T) (test_loader : list Data) (total_correct : nat)
  : result nat :=
  match test_loader with
  | [] => ok total_correct
  | data :: rest =>
      logits <- snd (Module_call m (Data_pos data) (Data_edge_index data)
                       (Data_batch data)) ;;
      pred <- argmax logits ;;
      c <- eq_sum pred (Data_y data) ;;
      test_loop m rest (total_correct + c)
  end.

Inductive test_exn : Type :=
| Raised (e : exn)
| ZeroDivisionError.

(** [test()] sets the model to evaluation mode, counts the correct
    predictions and divides by [len(test_loader.dataset)]; the quotient of
    the two integers is kept exact. *)
Definition test (m : PointNet T) (test_loader : list Data) (len_dataset : nat)
  : PointNet T * (test_exn + QArith_base.Q) :=
  let m := Module_eval m in
  match test_loop m test_loader 0 with
  | inl e => (m, inl (Raised e))
  | inr total_correct =>
      if len_dataset =? 0 then (m, inl ZeroDivisionError)
      else (m, inr (QArith_base.Qmake (Z.of_nat total_correct) (Pos.of_nat len_dataset)))
  end.

(** *** The prediction cell: [pred = logits.argmax(dim=-1)], then
    [class_names[pred.item()]]. *)
Definition predict (m : PointNet T) (data : Data) : result Z :=
  logits <- snd (Module_call m (Data_pos data) (Data_edge_index data)
                   (Data_batch data)) ;;
  pred <- argmax logits ;;
  item pred.

Definition predicted_class {A : Type} (m : PointNet T) (class_names : list A)
  (data : Data) : result A :=
  k <- predict m data ;;
  getitem class_names k.

(** The correct predictions of one batch: one turn of the loop of [test()]. *)
Definition batch_correct (m : PointNet T) (data : Data) : result nat :=
  logits <- snd (Module_call m (Data_pos data) (Data_edge_index data)
                   (Data_batch data)) ;;
  pred <- argmax logits ;;
  eq_sum pred (Data_y data).

(** One label per object of the batch. *)
Definition labelled (data : Data) : Prop :=
  match Data_batch data with
  | Some b => length (Data_y data) = infer_dim_size b
  | None => length (Data_y data) = 1
  end.

(** The inputs a model with the notebook's shapes accepts. *)
Definition cloud_valid (pos : Tensor T) (edge_index : EdgeIndex) : Prop :=
  ncols pos = 3 /\ edges_in_range (nrows pos) edge_index = true.

End Evaluation.

Arguments Data T : clear implicits.

(** ** The program with its store

    [PointNet_forward] above is the function of the parameters and the
    inputs that the forward pass computes.  The notebook's program itself
    runs in the interpreter's store: the model is an object whose mode flag
    [model.train()] and [model.eval()] assign, tensors are objects that
    operations read, allocate and, for the in-place ones, write.  Below is
    [PointNet.forward] once more, statement by statement, on references
    into such a store.  A computation takes the store and hands back its
    result, or the exception it raised, with the store as it left it. *)

Section Stateful.

Context {T : Type} {Sc : Scalar T}.

(** The objects a call of the model can reach. *)
Inductive object : Type :=
| OTensor (t : Tensor T)       (* a floating-point tensor *)
| OEdges (e : EdgeIndex)       (* an [edge_index] tensor *)
| OIndex (b : list Z)          (* a [batch] tensor of object ids *)
| OModule (m : PointNet T).    (* the model: its parameters and its mode *)

Definition Store : Type := list object.

Definition M (A : Type) : Type := Store -> result A * Store.

Definition ret {A : Type} (a : A) : M A := fun s => (ok a, s).

Definition lift {A : Type} (r : result A) : M A := fun s => (r, s).

Definition bindM {A B : Type} (c : M A) (k : A -> M B) : M B :=
  fun s =>
    match c s with
    | (inr a, s') => k a s'
    | (inl e, s') => (inl e, s')
    end.

Notation "x <~ c ;; k" := (bindM c (fun x => k))
  (at level 61, c at next level, right associativity).

(** A new object gets the next free reference; reading a reference that
    holds no object, or an object of another kind than the one asked for,
    is an error; [put] overwrites the object at a reference. *)
Definition new (o : object) : M nat :=
  fun s => (ok (length s), s ++ [o]).

Definition get (r : nat) : M object :=
  fun s => (match nth_error s r with
            | Some o => ok o
            | None => raise RuntimeError
            end, s).

Fixpoint update (s : Store) (r : nat) (o : object) : Store :=
  match s, r with
  | [], _ => []
  | _ :: t, O => o :: t
  | x :: t, S r' => x :: update t r' o
  end.

Definition put (r : nat) (o : object) : M unit :=
  fun s => (if r <? length s then ok tt else raise RuntimeError, update s r o).

Definition get_tensor (r : nat) : M (Tensor T) :=
  o <~ get r ;;
  match o with OTensor t => ret t | _ => lift (raise RuntimeError) end.

Definition get_edges (r : nat) : M EdgeIndex :=
  o <~ get r ;;
  match o with OEdges e => ret e | _ => lift (raise RuntimeError) end.

Definition get_index (r : nat) : M (list Z) :=
  o <~ get r ;;
  match o with OIndex b => ret b | _ => lift (raise RuntimeError) end.

Definition get_module (r : nat) : M (PointNet T) :=
  o <~ get r ;;
  match o with OModule m => ret m | _ => lift (raise RuntimeError) end.

(** An operation that is not in place: it reads its operands and
    allocates its result. *)
Definition apply1 (f : Tensor T -> result (Tensor T)) (x : nat) : M nat :=
  t <~ get_tensor x ;;
  r <~ lift (f t) ;;
  new (OTensor r).

Definition apply2 (f : Tensor T -> Tensor T -> result (Tensor T)) (x y : nat) : M nat :=
  a <~ get_tensor x ;;
  b <~ get_tensor y ;;
  r <~ lift (f a b) ;;
  new (OTensor r).

Definition index_select_s (src : nat) (index : list Z) : M nat :=
  apply1 (fun t => index_select t index) src.

Definition tensor_sub_s : nat -> nat -> M nat := apply2 tensor_sub.

Definition cat_s : nat -> nat -> M nat := apply2 cat.

Definition relu_s : nat -> M nat := apply1 (fun t => ok (relu t)).

Definition Linear_forward_s (l : Linear T) : nat -> M nat := apply1 (Linear_forward l).

(** [self.scatter_reduce_(0, index, src, 'amax', include_self=False)]: in
    place, on [self]. *)
Definition scatter_reduce_amax_ (self : nat) (index : list Z) (src : nat) : M nat :=
  o <~ get_tensor self ;;
  x <~ get_tensor src ;;
  _ <~ lift (check (forallb (in_range (nrows o)) index) RuntimeError) ;;
  _ <~ put self (OTensor (mkTensor (ncols o)
                    (map (fun i => amax (row o i) (received index (rows x) i))
                         (seq 0 (nrows o))))) ;;
  ret self.

(** [scatter]: [src.new_zeros(size).scatter_reduce_(...)]. *)
Definition scatter_max_s (src : nat) (index : list Z) (dim_size : nat) : M nat :=
  x <~ get_tensor src ;;
  index' <~ lift (broadcast index x) ;;
  out <~ new (OTensor (mkTensor (ncols x) (repeat (repeat szero (ncols x)) dim_size))) ;;
  scatter_reduce_amax_ out index' src.

Definition global_max_pool_s (x : nat) (batch : option nat) : M nat :=
  match batch with
  | None => apply1 (fun t => global_max_pool t None) x
  | Some b =>
      index <~ get_index b ;;
      scatter_max_s x index (infer_dim_size index)
  end.

(** [MessagePassing.propagate]: the per-edge tensors are gathered in the
    order of [collect], each into a new tensor; the message is computed
    and scattered. *)
Definition collect_s (edge_index h pos : nat) : M (nat * nat * nat * nat) :=
  e <~ get_edges edge_index ;;
  let j := map fst e in
  let i := map snd e in
  h_i <~ index_select_s h i ;;
  h_j <~ index_select_s h j ;;
  hv <~ get_tensor h ;;
  pv <~ get_tensor pos ;;
  _ <~ lift (check (nrows pv =? nrows hv) ValueError) ;;
  pos_j <~ index_select_s pos j ;;
  pos_i <~ index_select_s pos i ;;
  ret (h_i, h_j, pos_j, pos_i).

Definition propagate_s (message : nat -> nat -> nat -> nat -> M nat)
  (edge_index h pos : nat) : M nat :=
  c <~ collect_s edge_index h pos ;;
  let '(h_i, h_j, pos_j, pos_i) := c in
  msg <~ message h_i h_j pos_j pos_i ;;
  e <~ get_edges edge_index ;;
  hv <~ get_tensor h ;;
  scatter_max_s msg (map snd e) (nrows hv).

(** [self.mlp(edge_feat)] and [PointNetLayer.message]. *)
Definition mlp_s (l : PointNetLayer T) (x : nat) : M nat :=
  y <~ Linear_forward_s (mlp_0 l) x ;;
  y <~ relu_s y ;;
  Linear_forward_s (mlp_2 l) y.

Definition PointNetLayer_message_s (l : PointNetLayer T) (h_i h_j pos_j pos_i : nat) : M nat :=
  d <~ tensor_sub_s pos_j pos_i ;;
  edge_feat <~ cat_s h_j d ;;
  mlp_s l edge_feat.

Definition PointNetLayer_forward_s (l : PointNetLayer T) (h pos edge_index : nat) : M nat :=
  propagate_s (PointNetLayer_message_s l) edge_index h pos.

(** [PointNet.forward]: each [self.x] reads the model object, each
    assignment to [h] binds the name to a new tensor; [h.relu()] is the
    operation that is not in place. *)
Definition PointNet_forward_s (self pos edge_index : nat) (batch : option nat) : M nat :=
  (* h = self.conv1(h=pos, pos=pos, edge_index=edge_index) *)
  m <~ get_module self ;;
  h <~ PointNetLayer_forward_s (conv1 m) pos pos edge_index ;;
  (* h = h.relu() *)
  h <~ relu_s h ;;
  (* h = self.conv2(h=h, pos=pos, edge_index=edge_index) *)
  m <~ get_module self ;;
  h <~ PointNetLayer_forward_s (conv2 m) h pos edge_index ;;
  (* h = h.relu() *)
  h <~ relu_s h ;;
  (* h = global_max_pool(h, batch) *)
  h <~ global_max_pool_s h batch ;;
  (* return self.classifier(h) *)
  m <~ get_module self ;;
  Linear_forward_s (classifier m) h.

(** [model.train()] and [model.eval()] assign the mode flag of the model
    object. *)
Definition Module_train_s (self : nat) : M unit :=
  m <~ get_module self ;;
  put self (OModule (Module_train m)).

Definition Module_eval_s (self : nat) : M unit :=
  m <~ get_module self ;;
  put self (OModule (Module_eval m)).

(** [model(pos, edge_index, batch)]: [Module.__call__] runs [forward] (the
    notebook registers no hook). *)
Definition Module_call_s (self pos edge_index : nat) (batch : option nat) : M nat :=
  PointNet_forward_s self pos edge_index batch.

(** The tensor a call returned. *)
Definition returned (p : result nat * Store) : result (Tensor T) :=
  match fst p with
  | inr r =>
      match nth_error (snd p) r with
      | Some (OTensor t) => ok t
      | _ => raise RuntimeError
      end
  | inl e => raise e
  end.

Definition batch_is (s : Store) (batch : option nat) (b : option (list Z)) : Prop :=
  match batch, b with
  | None, None => True
  | Some r, Some v => nth_error s r = Some (OIndex v)
  | _, _ => False
  end.

(** *** What a computation does to the store *)

(** The store after a step holds every object it held before, unchanged,
    and whatever the step allocated. *)
Definition extends (s s' : Store) : Prop := exists ext, s' = s ++ ext.

Definition has (s : Store) (r : nat) (t : Tensor T) : Prop :=
  nth_error s r = Some (OTensor t).

(** [c], run in [s], only allocates, and its result and final store
    satisfy [Q]. *)
Definition runs {A : Type} (c : M A) (s : Store) (Q : result A -> Store -> Prop) : Prop :=
  extends s (snd (c s)) /\ Q (fst (c s)) (snd (c s)).

(** The result is a reference to the tensor [v], or the error [v]. *)
Definition yields (v : result (Tensor T)) (r : result nat) (s' : Store) : Prop :=
  match v with
  | inr t => exists x, r = ok x /\ has s' x t
  | inl e => r = raise e
  end.

End Stateful.

Arguments object T : clear implicits.
Arguments Store T : clear implicits.
Arguments M T A : clear implicits.

(** ** Linear maps as the framework computes them

    [x @ weight.T] is computed by a routine of the framework: which one,
    and in which order it adds up the products of a row, can depend on the
    shape of [x] and on the place of the row in it, and in floating point
    the sum depends on that order.  [kdot n r w x] stands for the sum of
    the products of the weight row [w] and the input row [x] as it is
    computed for row [r] of an input of [n] rows; [dot] is one such
    routine. *)
Class LinearKernel (T : Type) : Type := {
  kdot : nat -> nat -> list T -> list T -> T
}.

Section KernelModel.

Context {T : Type} {Sc : Scalar T} {K : LinearKernel T}.

Definition linear_row_k (n r : nat) (l : Linear T) (x : list T) : list T :=
  zip_with (fun w b => sadd (kdot n r w x) b) (weight l) (bias l).

Definition Linear_forward_k (l : Linear T) (x : Tensor T) : result (Tensor T) :=
  if ncols x =? in_features l
  then ok (mkTensor (out_features l)
             (map (fun p => linear_row_k (nrows x) (fst p) l (snd p))
                  (combine (seq 0 (nrows x)) (rows x))))
  else raise RuntimeError.

Definition mlp_k (l : PointNetLayer T) (x : Tensor T) : result (Tensor T) :=
  y <- Linear_forward_k (mlp_0 l) x ;;
  Linear_forward_k (mlp_2 l) (relu y).

Definition PointNetLayer_message_k (l : PointNetLayer T) : Message :=
  fun h_i h_j pos_j pos_i =>
    d <- tensor_sub pos_j pos_i ;;
    edge_feat <- cat h_j d ;;
    mlp_k l edge_feat.

Definition PointNetLayer_forward_k (l : PointNetLayer T) (h pos : Tensor T)
  (edge_index : EdgeIndex) : result (Tensor T) :=
  propagate (PointNetLayer_message_k l) edge_index h pos.

Definition PointNet_pooled_k (m : PointNet T) (pos : Tensor T) (edge_index : EdgeIndex)
  (batch : option (list Z)) : result (Tensor T) :=
  h <- PointNetLayer_forward_k (conv1 m) pos pos edge_index ;;
  let h := relu h in
  h <- PointNetLayer_forward_k (conv2 m) h pos edge_index ;;
  let h := relu h in
  global_max_pool h batch.

Definition PointNet_forward_k (m : PointNet T) (pos : Tensor T) (edge_index : EdgeIndex)
  (batch : option (list Z)) : result (Tensor T) :=
  h <- PointNet_pooled_k m pos edge_index batch ;;
  Linear_forward_k (classifier m) h.

(** A routine that computes every row in the same way, whatever the number
    of rows and the place of the row. *)
Definition uniform_kernel : Prop :=
  forall (n r n' r' : nat) (w x : list T), kdot n r w x = kdot n' r' w x.






End KernelModel.

(** The routine of the rest of this file: the products added up from the
    left, whatever the shape. *)
Definition exact_kernel {T : Type} {Sc : Scalar T} : LinearKernel T :=
  {| kdot := fun _ _ w x => dot w x |}.

(** ** One object of a batch

    The object whose points are the rows [o, o + n) of the batch. *)
Section Objects.

Context {T : Type}.







End Objects.

(** ** A scalar type that rounds

    Numbers kept to three significant bits, the way floating-point numbers
    are kept to 24: every sum, difference and product is cut back to its
    three leading bits.  Addition is then no longer associative:
    [(8 + 1) + 1 = 8] and [8 + (1 + 1) = 10]. *)
Record tiny : Type := Tiny { tiny_val : Z }.

Definition round3 (z : Z) : Z :=
  let n := Z.log2 (Z.abs z) in
  if (n <=? 2)%Z then z
  else (Z.sgn z * Z.shiftl (Z.shiftr (Z.abs z) (n - 2)) (n - 2))%Z.

Definition tiny_op (f : Z -> Z -> Z) (a b : tiny) : tiny :=
  Tiny (round3 (f (tiny_val a) (tiny_val b))).

#[export] Instance Scalar_tiny : Scalar tiny := {
  szero := Tiny 0;
  sadd := tiny_op Z.add;
  ssub := tiny_op Z.sub;
  smul := tiny_op Z.mul;
  smax := fun a b => Tiny (Z.max (tiny_val a) (tiny_val b));
  sle := fun a b => (tiny_val a <= tiny_val b)%Z
}.


(** ** Sample data

    A small integer-valued instance of everything above, on which the
    statements below are exercised. *)

Module Sample.

Open Scope Z_scope.

(** A generator with period three: -1, 0, 1, -1, ... *)
Definition rng0 : Rng Z := fun k => Z.of_nat (Nat.modulo k 3) - 1.

Definition empty_linear : Linear Z := mkLinear 0 0 [] [].

Definition empty_tensor : Tensor Z := mkTensor 0 [].

Definition value {A : Type} (d : A) (r : result A) : A :=
  match r with inr a => a | inl _ => d end.

(** [PointNetLayer(3, 32)] and [PointNet()] for ten classes. *)
Definition layer0 : PointNetLayer Z :=
  fst (value (mkPointNetLayer empty_linear empty_linear, rng0)
         (PointNetLayer_init 3 32 rng0)).

Definition model0 : PointNet Z :=
  fst (value (mkPointNet layer0 layer0 empty_linear true, rng0)
         (PointNet_init 10 rng0)).

(** Four points, the corners of a simplex. *)
Definition pos4 : Tensor Z :=
  mkTensor 3 [[0; 0; 0]; [1; 0; 0]; [0; 1; 0]; [0; 0; 1]].

(** Point 3 sends a message and receives none. *)
Definition edges4 : EdgeIndex := [(1, 0); (2, 0); (0, 1); (3, 2)].

Definition batch4 : list Z := [0; 0; 1; 1].




(** Ten points in four objects. *)
Definition pos10 : Tensor Z :=
  mkTensor 3 [[0; 0; 0]; [1; 0; 0]; [0; 1; 0];
              [0; 0; 1]; [1; 1; 0];
              [1; 0; 1]; [0; 1; 1]; [1; 1; 1];
              [2; 0; 0]; [0; 2; 0]].

Definition edges10 : EdgeIndex :=
  [(1, 0); (2, 0); (0, 1); (0, 2); (4, 3); (3, 4);
   (6, 5); (7, 5); (5, 6); (5, 7); (9, 8); (8, 9)].

Definition batch10 : list Z := [0; 0; 0; 1; 1; 2; 2; 2; 3; 3].

(** A second, smaller object. *)
Definition posA : Tensor Z := mkTensor 3 [[0; 0; 0]; [1; 0; 0]].

Definition out4 : Tensor Z :=
  value empty_tensor (PointNetLayer_forward layer0 pos4 pos4 [(1, 0); (0, 1)]).

Definition pooled4 : Tensor Z :=
  value empty_tensor (PointNet_pooled model0 pos4 edges4 (Some batch4)).

End Sample.

(** Sample data for the evaluation code. *)

Module Sample2.

Open Scope Z_scope.

(** The four-point cloud as one object straight from the dataset, as a
    batch of two objects, and a second, smaller object. *)
Definition single4 : Data Z := mkData Sample.pos4 Sample.edges4 None [7].

Definition pair4 : Data Z :=
  mkData Sample.pos4 Sample.edges4 (Some Sample.batch4) [0; 1].

Definition singleA : Data Z := mkData Sample.posA [(1, 0); (0, 1)] None [0].

Definition loader : list (Data Z) := [pair4; singleA].

Definition class_names : list nat := seq 100 10.

(** Ids 0 and 2 are used, id 1 is not. *)
Definition batch_gap : list Z := [0; 0; 2; 2].

Definition logits_gap : Tensor Z :=
  Sample.value Sample.empty_tensor
    (PointNet_forward Sample.model0 Sample.pos4 Sample.edges4 (Some batch_gap)).

Definition logits_no_edges : Tensor Z :=
  Sample.value Sample.empty_tensor
    (PointNet_forward Sample.model0 Sample.pos4 [] (Some Sample.batch4)).

(** The features with rows 0 and 3 overwritten. *)
Definition h4' : Tensor Z :=
  mkTensor 3 [[5; 5; 5]; [1; 0; 0]; [0; 1; 0]; [9; 9; 9]].

Definition out_h4 : Tensor Z :=
  Sample.value Sample.empty_tensor
    (PointNetLayer_forward Sample.layer0 Sample.pos4 Sample.pos4 Sample.edges4).

Definition out_h4' : Tensor Z :=
  Sample.value Sample.empty_tensor
    (PointNetLayer_forward Sample.layer0 h4' Sample.pos4 Sample.edges4).


Definition empty_cloud : Tensor Z := mkTensor 3 [].

Definition init0 : PointNet Z * Rng Z :=
  Sample.value (Sample.model0, Sample.rng0) (PointNet_init 10 Sample.rng0).

Definition accuracy0 : QArith_base.Q :=
  match snd (test Sample.model0 loader 3) with
  | inr q => q
  | inl _ => QArith_base.Qmake 0 1
  end.

Definition class0 : Z := Sample.value 0 (predict Sample.model0 single4).

(** A store holding the model, the four-point cloud, its edges and its
    batch vector, at the references 0 to 3. *)
Definition store0 : Store Z :=
  [OModule Sample.model0; OTensor Sample.pos4; OEdges Sample.edges4;
   OIndex Sample.batch4].

End Sample2.

(** Sample data over the integers with NaN. *)

Module SampleNaN.

Definition rng0 : Rng znan := fun k => Num (Z.of_nat (Nat.modulo k 3) - 1).

Definition empty_linear : Linear znan := mkLinear 0 0 [] [].

(** [PointNetLayer(3, 4)] and [PointNet()] for ten classes. *)
Definition layer0 : PointNetLayer znan :=
  fst (Sample.value (mkPointNetLayer empty_linear empty_linear, rng0)
         (PointNetLayer_init 3 4 rng0)).

Definition model0 : PointNet znan :=
  fst (Sample.value (mkPointNet layer0 layer0 empty_linear true, rng0)
         (PointNet_init 10 rng0)).

(** Three points; the first coordinate of the last one is NaN. *)
Definition pos3 : Tensor znan :=
  mkTensor 3 [[Num 0; Num 0; Num 0]; [Num 1; Num 0; Num 0]; [NaN; Num 1; Num 0]].



Definition edges2 : EdgeIndex := [(1, 0); (2, 0)]%Z.

Definition batch3 : list Z := [0; 0; 1]%Z.

Definition empty_tensor : Tensor znan := mkTensor 0 [].



Definition pooled3 : Tensor znan :=
  Sample.value empty_tensor (PointNet_pooled model0 pos3 edges2 (Some batch3)).

End SampleNaN.

(** Sample data over the numbers of three bits: a model, and a batch of two
    objects of two points each. *)

Module SampleKernel.

Definition rng0 : Rng tiny := fun k => Tiny (Z.of_nat (Nat.modulo k 5) - 2).

Definition empty_linear : Linear tiny := mkLinear 0 0 [] [].

Definition empty_layer : PointNetLayer tiny := mkPointNetLayer empty_linear empty_linear.

Definition model0 : PointNet tiny :=
  fst (Sample.value (mkPointNet empty_layer empty_layer empty_linear true, rng0)
         (PointNet_init 10 rng0)).




Definition empty_tensor : Tensor tiny := mkTensor 0 [].





End SampleKernel.

(** * Facts about the helpers *)

Section ListFacts.

Context {A B C : Type}.

Lemma zip_with_length (f : A -> B -> C) (l : list A) (l' : list B) :
  length (zip_with f l l') = Nat.min (length l) (length l').
Proof.
  revert l'; induction l as [|a t IH]; intros [|b t']; simpl; auto.
Qed.

Lemma zip_with_map {X : Type} (f : A -> B -> C) (g : X -> A) (k : X -> B) (l : list X) :
  zip_with f (map g l) (map k l) = map (fun x => f (g x) (k x)) l.
Proof.
  induction l as [|x t IH]; simpl; [reflexivity | now rewrite IH].
Qed.

Lemma forallb_map (p : B -> bool) (f : A -> B) (l : list A) :
  forallb p (map f l) = forallb (fun x => p (f x)) l.
Proof.
  induction l as [|x t IH]; simpl; [reflexivity | now rewrite IH].
Qed.

Lemma forallb_ext_in (p q : A -> bool) (l : list A) :
  (forall x, In x l -> p x = q x) -> forallb p l = forallb q l.
Proof.
  induction l as [|x t IH]; simpl; intros E; [reflexivity|].
  rewrite (E x), IH; auto.
Qed.

Lemma forallb_and (p q : A -> bool) (l : list A) :
  forallb (fun x => p x && q x) l = forallb p l && forallb q l.
Proof.
  induction l as [|x t IH]; simpl; [reflexivity|].
  rewrite IH. destruct (p x), (q x), (forallb p t), (forallb q t); reflexivity.
Qed.

Lemma filter_combine_map (p : B -> bool) (f : A -> B) (g : A -> C) (l : list A) :
  map snd (filter (fun x => p (fst x)) (combine (map f l) (map g l)))
  = map g (filter (fun x => p (f x)) l).
Proof.
  induction l as [|x t IH]; simpl; [reflexivity|].
  destruct (p (f x)); simpl; now rewrite IH.
Qed.

End ListFacts.

Lemma in_range_spec (n : nat) (i : Z) :
  in_range n i = true <-> (0 <= i < Z.of_nat n)%Z.
Proof.
  unfold in_range. rewrite andb_true_iff, Z.leb_le, Z.ltb_lt. tauto.
Qed.


Lemma bind_ok {A B : Type} (m : result A) (k : A -> result B) (b : B) :
  bind m k = inr b <-> exists a, m = inr a /\ k a = inr b.
Proof.
  destruct m as [e|a]; simpl; split.
  - discriminate.
  - intros (a & E & _); discriminate.
  - intros E; now exists a.
  - intros (a' & E & K); now inversion E; subst.
Qed.

Section Facts.

Context {T : Type} {Sc : Scalar T}.

Lemma index_select_ok (src : Tensor T) (index : list Z) :
  forallb (in_range (nrows src)) index = true ->
  index_select src index
  = ok (mkTensor (ncols src) (map (fun i => row src (Z.to_nat i)) index)).
Proof.
  intros E; unfold index_select; now rewrite E.
Qed.

Lemma index_select_err (src : Tensor T) (index : list Z) :
  forallb (in_range (nrows src)) index = false ->
  index_select src index = raise IndexError.
Proof.
  intros E; unfold index_select; now rewrite E.
Qed.

Lemma edges_in_range_split (n : nat) (edge_index : EdgeIndex) :
  edges_in_range n edge_index
  = forallb (in_range n) (map fst edge_index) && forallb (in_range n) (map snd edge_index).
Proof.
  unfold edges_in_range. rewrite !forallb_map. apply forallb_and.
Qed.

Lemma received_map {X : Type} (f : X -> Z) (g : X -> list T) (l : list X) (i : nat) :
  received (map f l) (map g l) i = map g (filter (fun x => (f x =? Z.of_nat i)%Z) l).
Proof.
  unfold received.
  apply (filter_combine_map (fun z => (z =? Z.of_nat i)%Z) f g l).
Qed.

(** The per-edge tensor [message] returns: one row per edge, in the order
    of the edge list. *)
Lemma collect_valid (h pos : Tensor T) (edge_index : EdgeIndex) :
  edges_in_range (nrows h) edge_index = true ->
  nrows pos = nrows h ->
  collect edge_index h pos
  = ok (mkTensor (ncols h) (map (fun e => row h (Z.to_nat (snd e))) edge_index),
        mkTensor (ncols h) (map (fun e => row h (Z.to_nat (fst e))) edge_index),
        mkTensor (ncols pos) (map (fun e => row pos (Z.to_nat (fst e))) edge_index),
        mkTensor (ncols pos) (map (fun e => row pos (Z.to_nat (snd e))) edge_index)).
Proof.
  intros R E. rewrite edges_in_range_split, andb_true_iff in R. destruct R as [Rj Ri].
  unfold collect.
  rewrite (index_select_ok h _ Ri), (index_select_ok h _ Rj). simpl.
  rewrite E, Nat.eqb_refl. simpl.
  rewrite !index_select_ok by (rewrite E; assumption). simpl.
  rewrite !map_map. reflexivity.
Qed.

Lemma message_valid (l : PointNetLayer T) (h pos : Tensor T) (edge_index : EdgeIndex) :
  (ncols h + ncols pos =? in_features (mlp_0 l)) = true ->
  (out_features (mlp_0 l) =? in_features (mlp_2 l)) = true ->
  PointNetLayer_message l
    (mkTensor (ncols h) (map (fun e => row h (Z.to_nat (snd e))) edge_index))
    (mkTensor (ncols h) (map (fun e => row h (Z.to_nat (fst e))) edge_index))
    (mkTensor (ncols pos) (map (fun e => row pos (Z.to_nat (fst e))) edge_index))
    (mkTensor (ncols pos) (map (fun e => row pos (Z.to_nat (snd e))) edge_index))
  = ok (mkTensor (out_features (mlp_2 l)) (map (edge_message l h pos) edge_index)).
Proof.
  intros E0 E2.
  unfold PointNetLayer_message, tensor_sub, cat, mlp, Linear_forward, nrows; simpl.
  rewrite !length_map, !Nat.eqb_refl. simpl.
  rewrite zip_with_length, !length_map, Nat.min_id, Nat.eqb_refl. simpl.
  rewrite E0. simpl. rewrite E2. simpl.
  rewrite !zip_with_map, !map_map. reflexivity.
Qed.

Lemma scatter_max_messages {X : Type} (f : X -> Z) (g : X -> list T) (l : list X)
  (c n : nat) :
  forallb (in_range n) (map f l) = true ->
  scatter_max (mkTensor c (map g l)) (map f l) n
  = ok (mkTensor c
          (map (fun i => amax (repeat szero c)
                              (map g (filter (fun x => (f x =? Z.of_nat i)%Z) l)))
               (seq 0 n))).
Proof.
  intros R. unfold scatter_max, broadcast, nrows; simpl.
  rewrite !length_map, Nat.eqb_refl. simpl. rewrite R. simpl.
  unfold ok. do 2 f_equal. apply map_ext. intros i. now rewrite received_map.
Qed.

(** On valid inputs the tensor program computes [layer_out]. *)
Lemma PointNetLayer_forward_valid (l : PointNetLayer T) (h pos : Tensor T)
  (edge_index : EdgeIndex) :
  layer_valid l h pos edge_index = true ->
  PointNetLayer_forward l h pos edge_index = ok (layer_out l h pos edge_index).
Proof.
  unfold layer_valid. rewrite !andb_true_iff.
  intros (((R & E) & E0) & E2). apply Nat.eqb_eq in E.
  unfold PointNetLayer_forward, propagate.
  rewrite (collect_valid h pos edge_index R E). simpl.
  rewrite (message_valid l h pos edge_index E0 E2). simpl.
  rewrite edges_in_range_split, andb_true_iff in R.
  rewrite (scatter_max_messages (@snd Z Z) (edge_message l h pos) edge_index _ _ (proj2 R)).
  reflexivity.
Qed.

(** On any other input it raises. *)
Lemma PointNetLayer_forward_invalid (l : PointNetLayer T) (h pos : Tensor T)
  (edge_index : EdgeIndex) :
  layer_valid l h pos edge_index = false ->
  exists e, PointNetLayer_forward l h pos edge_index = raise e.
Proof.
  unfold layer_valid. intros V.
  unfold PointNetLayer_forward, propagate.
  destruct (edges_in_range (nrows h) edge_index) eqn:R.
  - destruct (nrows pos =? nrows h) eqn:E.
    + apply Nat.eqb_eq in E. rewrite (collect_valid h pos edge_index R E). simpl.
      simpl in V.
      unfold PointNetLayer_message, tensor_sub, cat, mlp, Linear_forward, nrows; simpl.
      rewrite !length_map, !Nat.eqb_refl. simpl.
      rewrite zip_with_length, !length_map, Nat.min_id, Nat.eqb_refl. simpl.
      destruct (ncols h + ncols pos =? in_features (mlp_0 l)); simpl in *.
      * rewrite V. simpl. eexists; reflexivity.
      * eexists; reflexivity.
    + rewrite edges_in_range_split, andb_true_iff in R. destruct R as [Rj Ri].
      unfold collect.
      rewrite (index_select_ok h _ Ri), (index_select_ok h _ Rj). simpl.
      rewrite E. simpl. eexists; reflexivity.
  - rewrite edges_in_range_split in R. unfold collect.
    destruct (forallb (in_range (nrows h)) (map snd edge_index)) eqn:Ri.
    + rewrite andb_true_r in R.
      rewrite (index_select_ok h _ Ri), (index_select_err h _ R). simpl.
      eexists; reflexivity.
    + rewrite (index_select_err h _ Ri). simpl. eexists; reflexivity.
Qed.

Lemma PointNetLayer_forward_ok_iff (l : PointNetLayer T) (h pos : Tensor T)
  (edge_index : EdgeIndex) (out : Tensor T) :
  PointNetLayer_forward l h pos edge_index = ok out
  <-> layer_valid l h pos edge_index = true /\ out = layer_out l h pos edge_index.
Proof.
  split.
  - intros F. destruct (layer_valid l h pos edge_index) eqn:V.
    + rewrite (PointNetLayer_forward_valid _ _ _ _ V) in F. inversion F. auto.
    + destruct (PointNetLayer_forward_invalid _ _ _ _ V) as [e E].
      rewrite E in F. discriminate.
  - intros [V ->]. now apply PointNetLayer_forward_valid.
Qed.

End Facts.

(** * Shapes *)

Section Shapes.

Context {T : Type} {Sc : Scalar T}.

Lemma linear_row_length (l : Linear T) (x : list T) :
  Linear_wf l = true -> length (linear_row l x) = out_features l.
Proof.
  unfold Linear_wf, linear_row. rewrite !andb_true_iff, !Nat.eqb_eq.
  intros [[W _] Bi]. rewrite zip_with_length. lia.
Qed.

Lemma vmax_length (a b : list T) (n : nat) :
  length a = n -> length b = n -> length (vmax a b) = n.
Proof.
  intros. unfold vmax. rewrite zip_with_length. lia.
Qed.

Lemma fold_vmax_length (ms : list (list T)) (m : list T) (n : nat) :
  Forall (fun r => length r = n) ms -> length m = n ->
  length (fold_left vmax ms m) = n.
Proof.
  intros F; revert m; induction F as [|r t Hr _ IH]; simpl; intros m Hm; auto.
  apply IH. now apply vmax_length.
Qed.

Lemma amax_length (d : list T) (ms : list (list T)) (n : nat) :
  length d = n -> Forall (fun r => length r = n) ms -> length (amax d ms) = n.
Proof.
  intros Hd F. destruct F as [|r t Hr F]; simpl; auto.
  now apply fold_vmax_length.
Qed.

Lemma layer_row_length (l : PointNetLayer T) (h pos : Tensor T) (edge_index : EdgeIndex)
  (i : nat) :
  Linear_wf (mlp_2 l) = true ->
  length (layer_row l h pos edge_index i) = out_features (mlp_2 l).
Proof.
  intros W. unfold layer_row. apply amax_length.
  - apply repeat_length.
  - apply Forall_forall. intros r Hr. apply in_map_iff in Hr.
    destruct Hr as (e & <- & _). unfold edge_message, mlp_row.
    now apply linear_row_length.
Qed.

Lemma layer_out_shape (l : PointNetLayer T) (h pos : Tensor T) (edge_index : EdgeIndex) :
  Linear_wf (mlp_2 l) = true ->
  has_shape (layer_out l h pos edge_index) (nrows h) (out_features (mlp_2 l)).
Proof.
  intros W. unfold has_shape, layer_out, nrows, tensor_wf; simpl.
  rewrite length_map, length_seq. repeat split.
  apply forallb_forall. intros r Hr. apply in_map_iff in Hr.
  destruct Hr as (i & <- & _). apply Nat.eqb_eq. now apply layer_row_length.
Qed.

Lemma row_layer_out (l : PointNetLayer T) (h pos : Tensor T) (edge_index : EdgeIndex)
  (i : nat) :
  i < nrows h ->
  row (layer_out l h pos edge_index) i = layer_row l h pos edge_index i.
Proof.
  intros Hi. unfold row, layer_out; simpl.
  rewrite (nth_indep _ [] (layer_row l h pos edge_index 0))
    by now rewrite length_map, length_seq.
  rewrite (map_nth (layer_row l h pos edge_index)), seq_nth; auto.
Qed.

Lemma relu_shape (t : Tensor T) (n c : nat) :
  has_shape t n c -> has_shape (relu t) n c.
Proof.
  unfold has_shape, relu, nrows, tensor_wf; simpl.
  intros (N & C & W). rewrite length_map. repeat split; auto.
  rewrite forallb_map. erewrite forallb_ext_in; [exact W|].
  intros r _. simpl. now rewrite length_map.
Qed.

Lemma layer_valid_shapes (l : PointNetLayer T) (in_c out_c : nat) (h pos : Tensor T)
  (edge_index : EdgeIndex) (n : nat) :
  PointNetLayer_wf l in_c out_c ->
  has_shape h n in_c -> has_shape pos n 3 ->
  edges_in_range n edge_index = true ->
  layer_valid l h pos edge_index = true.
Proof.
  intros (_ & _ & I0 & O0 & I2 & _) (Hn & Hc & _) (Pn & Pc & _) R.
  unfold layer_valid. rewrite Hn, Pn, Hc, Pc, I0, O0, I2, R, !Nat.eqb_refl.
  reflexivity.
Qed.

Lemma Linear_forward_shape (l : Linear T) (x : Tensor T) (n : nat) :
  Linear_wf l = true -> nrows x = n -> ncols x = in_features l ->
  exists y, Linear_forward l x = ok y /\ has_shape y n (out_features l)
            /\ rows y = map (linear_row l) (rows x).
Proof.
  intros W N C. unfold Linear_forward. rewrite C, Nat.eqb_refl.
  eexists; split; [reflexivity|]. split; [|reflexivity].
  unfold has_shape, nrows, tensor_wf; simpl. rewrite length_map. repeat split; auto.
  rewrite forallb_map. apply forallb_forall. intros r _.
  apply Nat.eqb_eq. now apply linear_row_length.
Qed.

End Shapes.

(** * Reductions with a commutative, associative operation *)

Section Reduce.

Context {A : Type} (op : A -> A -> A).
Hypothesis op_comm : forall a b, op a b = op b a.
Hypothesis op_assoc : forall a b c, op a (op b c) = op (op a b) c.



End Reduce.

Lemma list_max_Z_init (t : list Z) (i : Z) : (i <= list_max_Z t i)%Z.
Proof.
  unfold list_max_Z. revert i; induction t as [|y t IH]; simpl; intros i; [lia|].
  specialize (IH (Z.max i y)). lia.
Qed.

Lemma list_max_Z_ge (t : list Z) (i x : Z) :
  In x (i :: t) -> (x <= list_max_Z t i)%Z.
Proof.
  intros [<-|H]; [apply list_max_Z_init|].
  unfold list_max_Z. revert i; induction t as [|y t IH]; simpl; intros i; [easy|].
  destruct H as [<-|H].
  - pose proof (list_max_Z_init t (Z.max i y)) as L. unfold list_max_Z in L. lia.
  - now apply IH.
Qed.

Lemma list_max_Z_in (t : list Z) (i : Z) : In (list_max_Z t i) (i :: t).
Proof.
  unfold list_max_Z. revert i; induction t as [|y t IH]; simpl; intros i; auto.
  destruct (IH (Z.max i y)) as [E|E]; [|auto].
  rewrite <- E. destruct (Z.max_spec i y) as [[_ ->]|[_ ->]]; auto.
Qed.


Lemma infer_dim_size_batch_of (B : nat) (batch : list Z) :
  0 < B -> batch_of B batch -> infer_dim_size batch = B.
Proof.
  intros HB [R C]. unfold infer_dim_size.
  destruct batch as [|i t].
  - destruct (C 0 HB).
  - assert (M : (list_max_Z t i = Z.of_nat B - 1)%Z).
    { apply Z.le_antisymm.
      - pose proof (R _ (list_max_Z_in t i)) as H. apply in_range_spec in H. lia.
      - pose proof (@list_max_Z_ge t i _ (C (B - 1) ltac:(lia))) as H. lia. }
    rewrite M. lia.
Qed.

Section Order.

Context {T : Type} {Sc : Scalar T} {SO : ScalarOrder T}.




End Order.

(** * Pooling and construction *)

Section Pool.

Context {T : Type} {Sc : Scalar T}.

Lemma broadcast_same (src : Tensor T) (index : list Z) :
  length index = nrows src -> broadcast index src = ok index.
Proof.
  intros E. unfold broadcast. now rewrite E, Nat.eqb_refl.
Qed.

Lemma scatter_max_full (src : Tensor T) (index : list Z) (n : nat) :
  length index = nrows src ->
  scatter_max src index n
  = if forallb (in_range n) index
    then ok (mkTensor (ncols src)
               (map (fun i => amax (repeat szero (ncols src)) (received index (rows src) i))
                    (seq 0 n)))
    else raise RuntimeError.
Proof.
  intros E. unfold scatter_max. rewrite (broadcast_same _ _ E). simpl.
  destruct (forallb (in_range n) index); reflexivity.
Qed.

Lemma received_In (index : list Z) (src : list (list T)) (i : nat) (r : list T) :
  In r (received index src i) -> In r src.
Proof.
  unfold received. intros H. apply in_map_iff in H.
  destruct H as ([z r'] & <- & H). apply filter_In in H.
  destruct H as [H _]. now apply in_combine_r in H.
Qed.

Lemma scatter_max_shape (src : Tensor T) (index : list Z) (n : nat) :
  tensor_wf src = true -> length index = nrows src ->
  forallb (in_range n) index = true ->
  exists out, scatter_max src index n = ok out /\ has_shape out n (ncols src).
Proof.
  intros W E R. rewrite (scatter_max_full _ _ _ E), R.
  eexists; split; [reflexivity|].
  unfold has_shape, nrows, tensor_wf; simpl. rewrite length_map, length_seq.
  repeat split. rewrite forallb_map. apply forallb_forall. intros i _.
  apply Nat.eqb_eq. apply amax_length; [apply repeat_length|].
  apply Forall_forall. intros r Hr. apply received_In in Hr.
  unfold tensor_wf in W. rewrite forallb_forall in W.
  apply Nat.eqb_eq. now apply W.
Qed.

Lemma draw_length (n : nat) (g : Rng T) : length (fst (draw n g)) = n.
Proof.
  unfold draw; simpl. now rewrite length_map, length_seq.
Qed.

Lemma draw_rows_shape (n c : nat) (g : Rng T) :
  length (fst (draw_rows n c g)) = n
  /\ forallb (fun w => length w =? c) (fst (draw_rows n c g)) = true.
Proof.
  revert g; induction n as [|n IH]; intros g; [simpl; auto|].
  change (draw_rows (S n) c g)
    with (let (r, g1) := draw c g in
          let (rs, g2) := draw_rows n c g1 in (r :: rs, g2)).
  destruct (draw c g) as [r g1] eqn:D.
  specialize (IH g1). destruct (draw_rows n c g1) as [rs g2]. simpl in *.
  destruct IH as [L F]. split; [now f_equal|].
  rewrite F, andb_true_r. apply Nat.eqb_eq.
  pose proof (draw_length c g) as H. now rewrite D in H.
Qed.

Lemma Linear_init_ok (in_f out_f : Z) (g : Rng T) :
  (0 <= in_f)%Z -> (0 <= out_f)%Z ->
  exists l g', Linear_init in_f out_f g = ok (l, g')
    /\ Linear_wf l = true
    /\ in_features l = Z.to_nat in_f /\ out_features l = Z.to_nat out_f.
Proof.
  intros I O. unfold Linear_init.
  assert (C : ((0 <=? in_f)%Z && (0 <=? out_f)%Z) = true)
    by (apply andb_true_iff; split; now apply Z.leb_le).
  rewrite C. simpl.
  pose proof (draw_rows_shape (Z.to_nat out_f) (Z.to_nat in_f) g) as [L F].
  destruct (draw_rows (Z.to_nat out_f) (Z.to_nat in_f) g) as [w g1]. simpl in L, F.
  pose proof (draw_length (Z.to_nat out_f) g1) as B.
  destruct (draw (Z.to_nat out_f) g1) as [b g2]. simpl in B.
  do 2 eexists. split; [reflexivity|]. unfold Linear_wf; simpl.
  now rewrite L, F, length_map, length_seq, Nat.eqb_refl.
Qed.

Lemma Linear_init_is_ok (in_f out_f : Z) (g : Rng T) :
  is_ok (Linear_init in_f out_f g) = (0 <=? in_f)%Z && (0 <=? out_f)%Z.
Proof.
  destruct ((0 <=? in_f)%Z && (0 <=? out_f)%Z) eqn:C.
  - apply andb_true_iff in C. destruct C as [I O].
    apply Z.leb_le in I, O.
    destruct (Linear_init_ok g I O) as (l & g' & E & _). now rewrite E.
  - unfold Linear_init. now rewrite C.
Qed.

Lemma PointNetLayer_init_ok (in_channels out_channels : Z) (g : Rng T) :
  (0 <= in_channels + 3)%Z -> (0 <= out_channels)%Z ->
  exists l g', PointNetLayer_init in_channels out_channels g = ok (l, g')
    /\ Linear_wf (mlp_0 l) = true /\ Linear_wf (mlp_2 l) = true
    /\ in_features (mlp_0 l) = Z.to_nat (in_channels + 3)
    /\ out_features (mlp_0 l) = Z.to_nat out_channels
    /\ in_features (mlp_2 l) = Z.to_nat out_channels
    /\ out_features (mlp_2 l) = Z.to_nat out_channels.
Proof.
  intros I O. unfold PointNetLayer_init.
  destruct (Linear_init_ok g I O) as (l0 & g0 & E0 & W0 & I0 & O0).
  rewrite E0. simpl.
  destruct (Linear_init_ok g0 O O) as (l2 & g2 & E2 & W2 & I2 & O2).
  rewrite E2. simpl.
  do 2 eexists. split; [reflexivity|]. simpl. tauto.
Qed.

Lemma PointNetLayer_init_is_ok (in_channels out_channels : Z) (g : Rng T) :
  is_ok (PointNetLayer_init in_channels out_channels g)
  = (0 <=? in_channels + 3)%Z && (0 <=? out_channels)%Z.
Proof.
  destruct ((0 <=? in_channels + 3)%Z && (0 <=? out_channels)%Z) eqn:C.
  - apply andb_true_iff in C. destruct C as [I O]. apply Z.leb_le in I, O.
    destruct (@PointNetLayer_init_ok in_channels out_channels g I O) as (l & g' & E & _).
    now rewrite E.
  - unfold PointNetLayer_init.
    pose proof (Linear_init_is_ok (in_channels + 3) out_channels g) as H0.
    rewrite C in H0.
    destruct (Linear_init (in_channels + 3) out_channels g); [reflexivity | discriminate].
Qed.

Lemma PointNetLayer_init_wf (in_channels out_channels : Z) (g : Rng T)
  (l : PointNetLayer T) (g' : Rng T) :
  (0 <= in_channels)%Z ->
  PointNetLayer_init in_channels out_channels g = ok (l, g') ->
  PointNetLayer_wf l (Z.to_nat in_channels) (Z.to_nat out_channels).
Proof.
  intros I E.
  assert (O : (0 <= out_channels)%Z).
  { pose proof (PointNetLayer_init_is_ok in_channels out_channels g) as H.
    rewrite E in H. simpl in H. symmetry in H. apply andb_true_iff in H.
    now apply Z.leb_le. }
  destruct (@PointNetLayer_init_ok in_channels out_channels g ltac:(lia) O)
    as (l1 & g1 & E1 & W0 & W2 & I0 & O0 & I2 & O2).
  rewrite E in E1. inversion E1; subst l1 g1.
  unfold PointNetLayer_wf. rewrite I0, O0, I2, O2. repeat split; auto. lia.
Qed.

End Pool.

(** * The forward pass of [PointNet] *)

Section Forward.

Context {T : Type} {Sc : Scalar T}.

Lemma PointNet_pooled_ok_iff (m : PointNet T) (pos : Tensor T) (edge_index : EdgeIndex)
  (batch : option (list Z)) (p : Tensor T) :
  PointNet_pooled m pos edge_index batch = ok p
  <-> layer_valid (conv1 m) pos pos edge_index = true
      /\ layer_valid (conv2 m) (relu (layer_out (conv1 m) pos pos edge_index)) pos
           edge_index = true
      /\ global_max_pool (point_features m pos edge_index) batch = ok p.
Proof.
  unfold PointNet_pooled, point_features. split.
  - intros H. apply bind_ok in H. destruct H as (h1 & F1 & H).
    apply PointNetLayer_forward_ok_iff in F1. destruct F1 as [V1 ->].
    apply bind_ok in H. destruct H as (h2 & F2 & H).
    apply PointNetLayer_forward_ok_iff in F2. destruct F2 as [V2 ->].
    auto.
  - intros (V1 & V2 & H).
    rewrite (PointNetLayer_forward_valid _ _ _ _ V1). simpl.
    rewrite (PointNetLayer_forward_valid _ _ _ _ V2). simpl.
    exact H.
Qed.

Lemma PointNet_features_shape (m : PointNet T) (num_classes : nat) (pos : Tensor T)
  (edge_index : EdgeIndex) (n : nat) :
  PointNet_wf m num_classes -> has_shape pos n 3 ->
  edges_in_range n edge_index = true ->
  layer_valid (conv1 m) pos pos edge_index = true
  /\ layer_valid (conv2 m) (relu (layer_out (conv1 m) pos pos edge_index)) pos
       edge_index = true
  /\ has_shape (point_features m pos edge_index) n 32.
Proof.
  intros (W1 & W2 & _) P R.
  assert (V1 : layer_valid (conv1 m) pos pos edge_index = true)
    by (eapply layer_valid_shapes; eauto).
  assert (S1 : has_shape (relu (layer_out (conv1 m) pos pos edge_index)) n 32).
  { apply relu_shape. destruct W1 as (_ & L2 & _ & _ & _ & O2).
    pose proof (layer_out_shape (conv1 m) pos pos edge_index L2) as H.
    rewrite O2 in H. destruct P as (Pn & _). now rewrite Pn in H. }
  assert (V2 : layer_valid (conv2 m) (relu (layer_out (conv1 m) pos pos edge_index)) pos
                 edge_index = true)
    by (eapply layer_valid_shapes; eauto).
  repeat split; auto; unfold point_features.
  - unfold nrows, relu, layer_out; simpl. rewrite !length_map, length_seq.
    destruct S1 as (N1 & _). exact N1.
  - simpl. now destruct W2 as (_ & _ & _ & _ & _ & O2).
  - destruct W2 as (_ & L2 & _).
    pose proof (layer_out_shape (conv2 m)
                  (relu (layer_out (conv1 m) pos pos edge_index)) pos edge_index L2) as H.
    apply relu_shape in H. now destruct H as (_ & _ & H).
Qed.

End Forward.

(** * The claims *)

Section ShapeClaims.

Context {T : Type} {Sc : Scalar T}.

(** C3 (shape contract).  On an [N]-point cloud with a valid edge list,
    [PointNetLayer(in_channels, out_channels).forward] returns a tensor of
    shape [[N, out_channels]] (so [[10, 32]] for [N = 10] and the layer
    [PointNetLayer(3, 32)]), and [PointNet.forward] on a batch of [B]
    objects returns logits of shape [[B, num_classes]]. *)
Theorem C3_shape_contract
  (l : PointNetLayer T) (in_channels out_channels : nat)
  (m : PointNet T) (num_classes : nat)
  (h pos : Tensor T) (edge_index : EdgeIndex) (batch : list Z) (N B : nat) :
  PointNetLayer_wf l in_channels out_channels ->
  PointNet_wf m num_classes ->
  has_shape h N in_channels -> has_shape pos N 3 ->
  edges_in_range N edge_index = true ->
  length batch = N -> 0 < B -> batch_of B batch ->
  (exists out, PointNetLayer_forward l h pos edge_index = ok out
               /\ has_shape out N out_channels)
  /\ (exists logits, PointNet_forward m pos edge_index (Some batch) = ok logits
                     /\ has_shape logits B num_classes).
Proof.
  intros Wl Wm Hh Hp R Lb HB Bo. split.
  - exists (layer_out l h pos edge_index). split.
    + apply PointNetLayer_forward_valid. eapply layer_valid_shapes; eauto.
    + destruct Wl as (_ & L2 & _ & _ & _ & O2).
      pose proof (layer_out_shape l h pos edge_index L2) as H.
      rewrite O2 in H. destruct Hh as (Hn & _). now rewrite Hn in H.
  - destruct (@PointNet_features_shape _ _ m num_classes pos edge_index N Wm Hp R)
      as (V1 & V2 & (Fn & Fc & Fw)).
    assert (Rb : forallb (in_range B) batch = true).
    { apply forallb_forall. apply Bo. }
    assert (Lb' : length batch = nrows (point_features m pos edge_index))
      by now rewrite Fn.
    destruct (@scatter_max_shape _ _ (point_features m pos edge_index) batch B Fw Lb' Rb)
      as (p & Ep & (Pn & Pc & Pw)).
    destruct Wm as (_ & _ & Wc & Ic & Oc).
    assert (Cp : ncols p = in_features (classifier m)) by now rewrite Pc, Fc, Ic.
    destruct (@Linear_forward_shape _ _ (classifier m) p B Wc Pn Cp) as (y & Ey & Sy & _).
    exists y. split; [|now rewrite <- Oc].
    unfold PointNet_forward.
    assert (Epool : PointNet_pooled m pos edge_index (Some batch) = ok p).
    { apply PointNet_pooled_ok_iff. repeat split; auto. simpl.
      now rewrite (@infer_dim_size_batch_of B batch HB Bo). }
    rewrite Epool. exact Ey.
Qed.

(** C4 (out-of-range rejection).  If some edge of the edge list has an
    endpoint outside [[0, N)], the gathering step of [propagate] raises, for
    whatever [message] hook, so [PointNetLayer.forward] raises before any
    message is computed and returns no result. *)
Theorem C4_out_of_range_rejected
  (l : PointNetLayer T) (h pos : Tensor T) (edge_index : EdgeIndex) :
  edges_in_range (nrows h) edge_index = false ->
  exists e,
    collect edge_index h pos = raise e
    /\ (forall message : Message, propagate message edge_index h pos = raise e)
    /\ PointNetLayer_forward l h pos edge_index = raise e.
Proof.
  intros R. exists IndexError.
  assert (C : collect edge_index h pos = raise IndexError).
  { rewrite edges_in_range_split in R. unfold collect.
    destruct (forallb (in_range (nrows h)) (map snd edge_index)) eqn:Ri.
    - rewrite andb_true_r in R.
      now rewrite (index_select_ok h _ Ri), (index_select_err h _ R).
    - now rewrite (index_select_err h _ Ri). }
  split; [exact C|].
  split; [intros message|]; unfold PointNetLayer_forward, propagate; now rewrite C.
Qed.

(** C8 (degree zero).  On a valid input, a point [i] that no edge targets
    does not make [PointNetLayer.forward] raise, and its output row is the
    zero vector of length [out_channels]. *)
Theorem C8_isolated_point_row_is_zero
  (l : PointNetLayer T) (in_channels out_channels : nat)
  (h pos : Tensor T) (edge_index : EdgeIndex) (N i : nat) :
  PointNetLayer_wf l in_channels out_channels ->
  has_shape h N in_channels -> has_shape pos N 3 ->
  edges_in_range N edge_index = true ->
  i < N ->
  (forall e, In e edge_index -> snd e <> Z.of_nat i) ->
  exists out, PointNetLayer_forward l h pos edge_index = ok out
              /\ row out i = repeat szero out_channels.
Proof.
  intros Wl Hh Hp R Hi Iso.
  exists (layer_out l h pos edge_index). split.
  - apply PointNetLayer_forward_valid. eapply layer_valid_shapes; eauto.
  - destruct Hh as (Hn & _). rewrite row_layer_out by now rewrite Hn.
    unfold layer_row, incoming.
    assert (E : filter (fun e => (snd e =? Z.of_nat i)%Z) edge_index = []).
    { induction edge_index as [|e t IH]; simpl; [reflexivity|].
      destruct (Z.eqb_spec (snd e) (Z.of_nat i)) as [Eq|_].
      - exfalso. apply (Iso e); [now left | exact Eq].
      - apply IH.
        + simpl in R. apply andb_true_iff in R. tauto.
        + intros e' He'. apply Iso. now right. }
    rewrite E. simpl. now destruct Wl as (_ & _ & _ & _ & _ & ->).
Qed.

End ShapeClaims.

Section MessageClaims.

Context {T : Type} {Sc : Scalar T}.

Lemma row_length (t : Tensor T) (i : nat) :
  tensor_wf t = true -> i < nrows t -> length (row t i) = ncols t.
Proof.
  unfold tensor_wf, row, nrows. intros W Hi.
  rewrite forallb_forall in W. apply Nat.eqb_eq, W. now apply nth_In.
Qed.

Lemma edge_feat_length (h pos : Tensor T) (e : Z * Z) (n in_channels : nat) :
  has_shape h n in_channels -> has_shape pos n 3 ->
  in_range n (fst e) && in_range n (snd e) = true ->
  length (edge_feat h pos e) = in_channels + 3.
Proof.
  intros (Hn & Hc & Hw) (Pn & Pc & Pw) R.
  apply andb_true_iff in R. destruct R as [Rj Ri].
  apply in_range_spec in Rj, Ri.
  unfold edge_feat. rewrite length_app, zip_with_length.
  rewrite !row_length; auto; try lia.
Qed.

(** C1 (per-edge message).  [PointNetLayer(in_channels, out_channels)]
    builds [Linear(in_channels + 3, out_channels)], [ReLU],
    [Linear(out_channels, out_channels)]; and for a layer of these shapes
    the message tensor has one row per edge [(j, i)], in the order of the
    edge list: the row [h_j ++ (pos_j - pos_i)], of length
    [in_channels + 3], sent through the first linear map, the rectifier
    and the second linear map.  These are the rows the layer aggregates. *)
Theorem C1_edge_message
  (in_channels out_channels : nat) (g : Rng T) (l : PointNetLayer T)
  (h pos : Tensor T) (edge_index : EdgeIndex) (N : nat) :
  PointNetLayer_wf l in_channels out_channels ->
  has_shape h N in_channels -> has_shape pos N 3 ->
  edges_in_range N edge_index = true ->
  (exists l0 g', PointNetLayer_init (Z.of_nat in_channels) (Z.of_nat out_channels) g
                 = ok (l0, g')
                 /\ PointNetLayer_wf l0 in_channels out_channels)
  /\ (exists h_i h_j pos_j pos_i msg,
        collect edge_index h pos = ok (h_i, h_j, pos_j, pos_i)
        /\ PointNetLayer_message l h_i h_j pos_j pos_i = ok msg
        /\ rows msg
           = map (fun e =>
                    let j := Z.to_nat (fst e) in
                    let i := Z.to_nat (snd e) in
                    linear_row (mlp_2 l)
                      (map srelu
                         (linear_row (mlp_0 l)
                            (row h j ++ zip_with ssub (row pos j) (row pos i)))))
                 edge_index
        /\ Forall (fun e => length (edge_feat h pos e) = in_channels + 3) edge_index
        /\ ncols msg = out_channels
        /\ PointNetLayer_forward l h pos edge_index
           = scatter_max msg (map snd edge_index) N).
Proof.
  intros Wl Hh Hp R. split.
  - assert (I3 : (0 <= Z.of_nat in_channels + 3)%Z) by lia.
    assert (I : (0 <= Z.of_nat in_channels)%Z) by lia.
    assert (O : (0 <= Z.of_nat out_channels)%Z) by lia.
    destruct (@PointNetLayer_init_ok T (Z.of_nat in_channels) (Z.of_nat out_channels) g
                I3 O) as (l0 & g' & E & W).
    exists l0, g'. split; [exact E|].
    pose proof (@PointNetLayer_init_wf T _ _ g l0 g' I E) as H.
    now rewrite !Nat2Z.id in H.
  - assert (V : layer_valid l h pos edge_index = true)
      by (eapply layer_valid_shapes; eauto).
    unfold layer_valid in V. rewrite !andb_true_iff in V.
    destruct V as (((R' & E) & E0) & E2). apply Nat.eqb_eq in E.
    do 5 eexists. split; [apply (collect_valid h pos edge_index R' E)|].
    split; [apply (message_valid l h pos edge_index E0 E2)|].
    simpl. split; [reflexivity|]. split; [|split].
    + apply Forall_forall. intros e He. eapply edge_feat_length; eauto.
      unfold edges_in_range in R. rewrite forallb_forall in R. now apply R.
    + now destruct Wl as (_ & _ & _ & _ & _ & O2).
    + unfold PointNetLayer_forward, propagate.
      rewrite (collect_valid h pos edge_index R' E). simpl.
      rewrite (message_valid l h pos edge_index E0 E2). simpl.
      destruct Hh as (<- & _). reflexivity.
Qed.

End MessageClaims.

Section ConstructionClaims.

Context {T : Type} {Sc : Scalar T}.

Lemma PointNet_init_is_ok (num_classes : Z) (g : Rng T) :
  is_ok (PointNet_init num_classes g) = (0 <=? num_classes)%Z.
Proof.
  unfold PointNet_init.
  assert (P6 : (0 <= 3 + 3)%Z) by lia.
  assert (P35 : (0 <= 32 + 3)%Z) by lia.
  assert (P32 : (0 <= 32)%Z) by lia.
  destruct (@PointNetLayer_init_ok T 3 32 g P6 P32) as (l1 & g1 & E1 & _).
  rewrite E1. cbn [bind ok fst snd].
  destruct (@PointNetLayer_init_ok T 32 32 g1 P35 P32) as (l2 & g2 & E2 & _).
  rewrite E2. cbn [bind ok fst snd].
  pose proof (Linear_init_is_ok 32 num_classes g2) as H.
  destruct (Linear_init 32 num_classes g2); exact H.
Qed.

Lemma PointNet_init_ok (num_classes : Z) (g : Rng T) :
  (0 <= num_classes)%Z ->
  exists m g', PointNet_init num_classes g = ok (m, g')
               /\ PointNet_wf m (Z.to_nat num_classes) /\ training m = true.
Proof.
  intros Hnc. unfold PointNet_init.
  assert (P6 : (0 <= 3 + 3)%Z) by lia.
  assert (P35 : (0 <= 32 + 3)%Z) by lia.
  assert (Z3 : (0 <= 3)%Z) by lia.
  assert (Z32 : (0 <= 32)%Z) by lia.
  destruct (@PointNetLayer_init_ok T 3 32 g P6 Z32) as (l1 & g1 & E1 & _).
  pose proof (@PointNetLayer_init_wf T 3 32 g l1 g1 Z3 E1) as W1.
  rewrite E1. cbn [bind ok fst snd].
  destruct (@PointNetLayer_init_ok T 32 32 g1 P35 Z32) as (l2 & g2 & E2 & _).
  pose proof (@PointNetLayer_init_wf T 32 32 g1 l2 g2 Z32 E2) as W2.
  rewrite E2. cbn [bind ok fst snd].
  destruct (@Linear_init_ok T 32 num_classes g2 Z32 Hnc) as (c & g3 & E3 & Wc & Ic & Oc).
  rewrite E3. cbn [bind ok fst snd].
  do 2 eexists. split; [reflexivity|]. split; [|reflexivity].
  unfold PointNet_wf. cbn [conv1 conv2 classifier].
  split; [exact W1|]. split; [exact W2|]. auto.
Qed.

Lemma not_ok_raises {A : Type} (r : result A) :
  is_ok r = false -> exists e, r = raise e.
Proof.
  destruct r as [e|a]; [now exists e | discriminate].
Qed.

(** C5, as the code has it.  Neither constructor tests its arguments for
    positivity.  [PointNetLayer(in_channels, out_channels)] raises, at
    construction, when [in_channels + 3] or [out_channels] is negative (the
    allocation of a [Linear] weight refuses a negative dimension), and
    [PointNet()] raises when [dataset.num_classes] is negative.  Values
    that are not positive but pass this are accepted: [in_channels] from
    [-3] on, [out_channels] and the class count from [0] on construct a
    layer, resp. a model, with these very sizes.  (Acceptance is stated for
    sizes up to those the notebook itself allocates; how large a tensor
    can be allocated is not part of the model.) *)
Theorem C5_construction_rejects_negative_sizes
  (in_channels out_channels num_classes : Z) (g : Rng T) :
  ((in_channels + 3 < 0 \/ out_channels < 0)%Z ->
     exists e, PointNetLayer_init in_channels out_channels g = raise e)
  /\ ((num_classes < 0)%Z -> exists e, PointNet_init num_classes g = raise e)
  /\ ((-3 <= in_channels <= 32)%Z -> (0 <= out_channels <= 32)%Z ->
      exists l g',
        PointNetLayer_init in_channels out_channels g = ok (l, g')
        /\ in_features (mlp_0 l) = Z.to_nat (in_channels + 3)
        /\ out_features (mlp_0 l) = Z.to_nat out_channels
        /\ out_features (mlp_2 l) = Z.to_nat out_channels)
  /\ ((0 <= num_classes <= 10)%Z ->
      exists m g',
        PointNet_init num_classes g = ok (m, g')
        /\ out_features (classifier m) = Z.to_nat num_classes).
Proof.
  split; [|split; [|split]].
  - intros H. apply not_ok_raises. rewrite PointNetLayer_init_is_ok.
    apply andb_false_iff. destruct H; [left | right]; apply Z.leb_gt; lia.
  - intros H. apply not_ok_raises. rewrite PointNet_init_is_ok.
    apply Z.leb_gt; lia.
  - intros I O.
    assert (I3 : (0 <= in_channels + 3)%Z) by lia.
    assert (O0 : (0 <= out_channels)%Z) by lia.
    destruct (@PointNetLayer_init_ok T in_channels out_channels g I3 O0)
      as (l & g' & E & _ & _ & Hi & Ho & _ & Ho2).
    exists l, g'. auto.
  - intros H.
    assert (H0 : (0 <= num_classes)%Z) by lia.
    destruct (PointNet_init_ok g H0) as (m & g' & E & W & _).
    exists m, g'. split; [exact E|].
    now destruct W as (_ & _ & _ & _ & Oc).
Qed.

End ConstructionClaims.

(** C5 as stated fails: [PointNetLayer(0, 1)] and a [PointNet] for a
    class count of [0] are both constructed without an error. *)
Lemma C5_counterexample :
  is_ok (PointNetLayer_init (T := Z) 0 1 (fun _ => 1%Z)) = true
  /\ is_ok (PointNet_init (T := Z) 0 (fun _ => 1%Z)) = true.
Proof.
  split; vm_compute; reflexivity.
Qed.

(** * The program with its store *)

Section ModeClaims.

Context {T : Type} {Sc : Scalar T}.

Lemma extends_refl (s : Store T) : extends s s.
Proof. exists []. now rewrite app_nil_r. Qed.

Lemma extends_trans (s s' s'' : Store T) : extends s s' -> extends s' s'' -> extends s s''.
Proof.
  intros [e1 ->] [e2 ->]. exists (e1 ++ e2). now rewrite app_assoc.
Qed.

Lemma lookup_extends (s s' : Store T) (r : nat) (o : object T) :
  extends s s' -> nth_error s r = Some o -> nth_error s' r = Some o.
Proof.
  intros [ext ->] H. rewrite nth_error_app1; [exact H|].
  apply nth_error_Some. congruence.
Qed.

Lemma has_extends (s s' : Store T) (r : nat) (t : Tensor T) :
  extends s s' -> has s r t -> has s' r t.
Proof. apply lookup_extends. Qed.

Lemma runs_bind {A B : Type} (c : M T A) (k : A -> M T B) (s : Store T)
  (Q1 : result A -> Store T -> Prop) (Q2 : result B -> Store T -> Prop) :
  runs c s Q1 ->
  (forall a s', extends s s' -> Q1 (ok a) s' -> runs (k a) s' Q2) ->
  (forall e s', Q1 (raise e) s' -> Q2 (raise e) s') ->
  runs (bindM c k) s Q2.
Proof.
  unfold runs, bindM. intros [E1 H1] Hk He.
  destruct (c s) as [[e|a] s']; simpl in *.
  - split; [exact E1 | now apply He].
  - destruct (Hk a s' E1 H1) as [E2 H2].
    split; [eapply extends_trans; eauto | exact H2].
Qed.

Lemma runs_weaken {A : Type} (c : M T A) (s : Store T) (Q Q' : result A -> Store T -> Prop) :
  runs c s Q -> (forall r s', extends s s' -> Q r s' -> Q' r s') -> runs c s Q'.
Proof.
  intros [E H] W. split; [exact E | now apply W].
Qed.

Lemma runs_ret {A : Type} (a : A) (s : Store T) :
  runs (ret a) s (fun r s' => r = ok a /\ s' = s).
Proof. split; [apply extends_refl | now split]. Qed.

Lemma runs_lift {A : Type} (v : result A) (s : Store T) :
  runs (lift v) s (fun r s' => r = v /\ s' = s).
Proof. split; [apply extends_refl | now split]. Qed.

Lemma runs_get (x : nat) (o : object T) (s : Store T) :
  nth_error s x = Some o ->
  runs (get x) s (fun r s' => r = ok o /\ s' = s).
Proof.
  intros H. unfold runs, get. rewrite H. simpl.
  split; [apply extends_refl | now split].
Qed.

Lemma runs_get_tensor (x : nat) (t : Tensor T) (s : Store T) :
  has s x t -> runs (get_tensor x) s (fun r s' => r = ok t /\ s' = s).
Proof.
  intros H. unfold runs, get_tensor, bindM, get. rewrite H. simpl.
  split; [apply extends_refl | now split].
Qed.

Lemma runs_get_edges (x : nat) (e : EdgeIndex) (s : Store T) :
  nth_error s x = Some (OEdges e) ->
  runs (get_edges x) s (fun r s' => r = ok e /\ s' = s).
Proof.
  intros H. unfold runs, get_edges, bindM, get. rewrite H. simpl.
  split; [apply extends_refl | now split].
Qed.

Lemma runs_get_index (x : nat) (b : list Z) (s : Store T) :
  nth_error s x = Some (OIndex b) ->
  runs (get_index x) s (fun r s' => r = ok b /\ s' = s).
Proof.
  intros H. unfold runs, get_index, bindM, get. rewrite H. simpl.
  split; [apply extends_refl | now split].
Qed.

Lemma runs_get_module (x : nat) (m : PointNet T) (s : Store T) :
  nth_error s x = Some (OModule m) ->
  runs (get_module x) s (fun r s' => r = ok m /\ s' = s).
Proof.
  intros H. unfold runs, get_module, bindM, get. rewrite H. simpl.
  split; [apply extends_refl | now split].
Qed.

Lemma runs_new_tensor (t : Tensor T) (s : Store T) :
  runs (new (OTensor t)) s (yields (ok t)).
Proof.
  unfold runs, new. simpl. split; [now exists [OTensor t]|].
  exists (length s). split; [reflexivity|].
  unfold has. now rewrite nth_error_app2, Nat.sub_diag by lia.
Qed.

(** Reading is a step that changes nothing: a computation that starts with
    a read runs as its continuation does. *)
Lemma runs_read {A B : Type} (c : M T A) (a : A) (k : A -> M T B) (s : Store T)
  (Q : result B -> Store T -> Prop) :
  runs c s (fun r s' => r = ok a /\ s' = s) ->
  runs (k a) s Q ->
  runs (bindM c k) s Q.
Proof.
  intros Hc Hk. eapply runs_bind; [exact Hc| |].
  - intros a' s' _ [E ->]. inversion E; subst a'. exact Hk.
  - intros e s' [E _]. discriminate E.
Qed.

Lemma runs_lift_bind {A B : Type} (v : result A) (k : A -> M T B) (s : Store T)
  (Q : result B -> Store T -> Prop) :
  (forall a, v = ok a -> runs (k a) s Q) ->
  (forall e, v = raise e -> Q (raise e) s) ->
  runs (bindM (lift v) k) s Q.
Proof.
  intros Hk He. unfold runs, bindM, lift. destruct v as [e|a]; simpl.
  - split; [apply extends_refl | now apply He].
  - now apply Hk.
Qed.

Lemma runs_apply1 (f : Tensor T -> result (Tensor T)) (x : nat) (t : Tensor T) (s : Store T) :
  has s x t -> runs (apply1 f x) s (yields (f t)).
Proof.
  intros H. unfold apply1.
  eapply runs_read; [exact (runs_get_tensor H)|].
  apply runs_lift_bind.
  - intros r ->. apply runs_new_tensor.
  - intros e ->. reflexivity.
Qed.

Lemma runs_apply2 (f : Tensor T -> Tensor T -> result (Tensor T)) (x y : nat)
  (a b : Tensor T) (s : Store T) :
  has s x a -> has s y b -> runs (apply2 f x y) s (yields (f a b)).
Proof.
  intros Hx Hy. unfold apply2.
  eapply runs_read; [exact (runs_get_tensor Hx)|].
  eapply runs_read; [exact (runs_get_tensor Hy)|].
  apply runs_lift_bind.
  - intros r ->. apply runs_new_tensor.
  - intros e ->. reflexivity.
Qed.

(** Sequencing two steps that each yield a tensor. *)
Lemma runs_yields_bind {B : Type} (c : M T nat) (k : nat -> M T B) (s : Store T)
  (v : result (Tensor T)) (Q : result B -> Store T -> Prop) :
  runs c s (yields v) ->
  (forall t x s', v = ok t -> extends s s' -> has s' x t -> runs (k x) s' Q) ->
  (forall e s', v = raise e -> Q (raise e) s') ->
  runs (bindM c k) s Q.
Proof.
  intros Hc Hk He. eapply runs_bind; [exact Hc| |].
  - intros x s' E Y. unfold yields in Y. destruct v as [e|t].
    + discriminate Y.
    + destruct Y as (x' & Ex & Hx). inversion Ex; subst x'. now apply (Hk t).
  - intros e s' Y. unfold yields in Y. destruct v as [e'|t].
    + inversion Y; subst e'. now apply He.
    + destruct Y as (x' & Ex & _). discriminate Ex.
Qed.


Lemma batch_is_extends (s s' : Store T) (batch : option nat) (b : option (list Z)) :
  extends s s' -> batch_is s batch b -> batch_is s' batch b.
Proof.
  intros E. destruct batch, b; simpl; try tauto. now apply lookup_extends.
Qed.

Ltac carry E :=
  repeat match goal with
         | H : has ?s _ _ |- _ =>
             match type of E with
             | extends s _ =>
                 let H' := fresh in
                 pose proof (@has_extends _ _ _ _ E H) as H'; clear H; rename H' into H
             end
         | H : nth_error ?s _ = Some _ |- _ =>
             match type of E with
             | extends s _ =>
                 let H' := fresh in
                 pose proof (@lookup_extends _ _ _ _ E H) as H'; clear H; rename H' into H
             end
         | H : batch_is ?s _ _ |- _ =>
             match type of E with
             | extends s _ =>
                 let H' := fresh in
                 pose proof (@batch_is_extends _ _ _ _ E H) as H'; clear H; rename H' into H
             end
         end.

(** One step that yields a tensor, then the rest. *)
Ltac step H :=
  eapply runs_yields_bind;
  [ exact H
  | let E := fresh "E" in
    let Ev := fresh "Ev" in
    intros ? ? ? Ev E ?; rewrite Ev; cbn [bind ok]; carry E; clear E Ev
  | let Ev := fresh "Ev" in
    intros ? ? Ev; rewrite Ev; reflexivity ].

Lemma update_app_last (s : Store T) (z o : object T) :
  update (s ++ [z]) (length s) o = s ++ [o].
Proof.
  induction s as [|x s IH]; simpl; [reflexivity | now rewrite IH].
Qed.

(** The in-place reduction writes to the tensor [scatter] has just
    allocated, and to nothing else. *)
Lemma scatter_reduce_amax_fresh (src : nat) (index : list Z) (o x : Tensor T) (s : Store T) :
  has s src x ->
  scatter_reduce_amax_ (length s) index src (s ++ [OTensor o])
  = if forallb (in_range (nrows o)) index
    then (ok (length s),
          s ++ [OTensor (mkTensor (ncols o)
                           (map (fun i => amax (row o i) (received index (rows x) i))
                                (seq 0 (nrows o))))])
    else (raise RuntimeError, s ++ [OTensor o]).
Proof.
  intros H.
  assert (Hs : nth_error (s ++ [OTensor o]) src = Some (OTensor x)).
  { apply lookup_extends with (s := s); [now exists [OTensor o] | exact H]. }
  assert (Ho : nth_error (s ++ [OTensor o]) (length s) = Some (OTensor o)).
  { now rewrite nth_error_app2, Nat.sub_diag by lia. }
  assert (Lt : (length s <? length (s ++ [OTensor o])) = true).
  { apply Nat.ltb_lt. rewrite length_app. simpl. lia. }
  cbv [scatter_reduce_amax_ bindM get_tensor get lift put ret ok raise check].
  rewrite Ho. cbv beta iota. rewrite Hs. cbv beta iota.
  destruct (forallb (in_range (nrows o)) index); cbv beta iota; [|reflexivity].
  now rewrite Lt, update_app_last.
Qed.

(** The in-place reduction writes to the tensor [scatter] has just
    allocated, and to nothing else. *)
Lemma runs_scatter_max_s (src : nat) (index : list Z) (n : nat) (x : Tensor T) (s : Store T) :
  has s src x ->
  runs (scatter_max_s src index n) s (yields (scatter_max x index n)).
Proof.
  intros H. unfold scatter_max_s, scatter_max.
  eapply runs_read; [exact (runs_get_tensor H)|].
  apply runs_lift_bind; [|intros e ->; reflexivity].
  intros index' ->. cbn [bind ok].
  set (zeros := mkTensor (ncols x) (repeat (repeat szero (ncols x)) n)).
  assert (Nz : nrows zeros = n) by apply repeat_length.
  assert (Eq : bindM (new (OTensor zeros))
                 (fun out => scatter_reduce_amax_ out index' src) s
               = scatter_reduce_amax_ (length s) index' src (s ++ [OTensor zeros]))
    by reflexivity.
  unfold runs. rewrite Eq, (scatter_reduce_amax_fresh index' zeros H), Nz.
  destruct (forallb (in_range n) index') eqn:R; cbn [check ok raise bind fst snd].
  - split; [now eexists|].
    exists (length s). split; [reflexivity|].
    unfold has. rewrite nth_error_app2, Nat.sub_diag by lia. cbn [nth_error].
    do 2 f_equal. cbn [ncols zeros]. f_equal.
    apply map_ext_in. intros i Hi. apply in_seq in Hi.
    unfold row. cbn [rows zeros]. now rewrite nth_repeat_lt by lia.
  - split; [now eexists | reflexivity].
Qed.

Lemma runs_global_max_pool_s (x : nat) (batch : option nat) (b : option (list Z))
  (t : Tensor T) (s : Store T) :
  has s x t -> batch_is s batch b ->
  runs (global_max_pool_s x batch) s (yields (global_max_pool t b)).
Proof.
  intros H B. destruct batch as [r|], b as [idx|]; simpl in B; try tauto.
  - unfold global_max_pool_s.
    eapply runs_read; [eapply runs_get_index; exact B|].
    now apply runs_scatter_max_s.
  - unfold global_max_pool_s. now apply (runs_apply1 (fun t => global_max_pool t None)).
Qed.

Lemma runs_mlp_s (l : PointNetLayer T) (x : nat) (t : Tensor T) (s : Store T) :
  has s x t -> runs (mlp_s l x) s (yields (mlp l t)).
Proof.
  intros H. unfold mlp_s, mlp, Linear_forward_s, relu_s.
  step (runs_apply1 (Linear_forward (mlp_0 l)) H).
  eapply runs_yields_bind;
    [ apply (runs_apply1 (fun t => ok (relu t))); eassumption | | discriminate ].
  intros t1 x1 s1 Ev E Hx. inversion Ev; subst t1.
  now apply runs_apply1.
Qed.

Lemma runs_message_s (l : PointNetLayer T) (h_i h_j pos_j pos_i : nat)
  (a b c d : Tensor T) (s : Store T) :
  has s h_i a -> has s h_j b -> has s pos_j c -> has s pos_i d ->
  runs (PointNetLayer_message_s l h_i h_j pos_j pos_i) s
       (yields (PointNetLayer_message l a b c d)).
Proof.
  intros Ha Hb Hc Hd. unfold PointNetLayer_message_s, PointNetLayer_message,
    tensor_sub_s, cat_s.
  step (runs_apply2 tensor_sub Hc Hd).
  step (runs_apply2 cat Hb H).
  now apply runs_mlp_s.
Qed.

Lemma runs_collect_s (edge_index h pos : nat) (ev : EdgeIndex) (hv pv : Tensor T)
  (s : Store T) (B : Type) (k : nat * nat * nat * nat -> M T B)
  (Q : result B -> Store T -> Prop) :
  nth_error s edge_index = Some (OEdges ev) -> has s h hv -> has s pos pv ->
  (forall e s', collect ev hv pv = raise e -> Q (raise e) s') ->
  (forall a b c d ra rb rc rd s',
     collect ev hv pv = ok (a, b, c, d) -> extends s s' ->
     has s' ra a -> has s' rb b -> has s' rc c -> has s' rd d ->
     runs (k (ra, rb, rc, rd)) s' Q) ->
  runs (bindM (collect_s edge_index h pos) k) s Q.
Proof.
  intros He Hh Hp Qe Qk.
  eapply runs_bind with
    (Q1 := fun r s' =>
             match collect ev hv pv with
             | inr (a, b, c, d) =>
                 exists ra rb rc rd, r = ok (ra, rb, rc, rd)
                   /\ has s' ra a /\ has s' rb b /\ has s' rc c /\ has s' rd d
             | inl e => r = raise e
             end).
  - unfold collect_s, collect, index_select_s.
    eapply runs_read; [eapply runs_get_edges; exact He|].
    eapply runs_yields_bind;
      [ exact (runs_apply1 (fun t => index_select t (map snd ev)) Hh) | | ].
    2: { intros e s' Ev. now rewrite Ev. }
    intros a ra s1 Ea E1 Ha. rewrite Ea. cbn [bind ok]. carry E1. clear E1.
    eapply runs_yields_bind;
      [ exact (runs_apply1 (fun t => index_select t (map fst ev)) Hh) | | ].
    2: { intros e s' Ev. now rewrite Ev. }
    intros b rb s2 Eb E2 Hb. rewrite Eb. cbn [bind ok]. carry E2. clear E2.
    eapply runs_read; [exact (runs_get_tensor Hh)|].
    eapply runs_read; [exact (runs_get_tensor Hp)|].
    apply runs_lift_bind.
    2: { intros e Ec. now rewrite Ec. }
    intros [] Ec. rewrite Ec. cbn [bind ok].
    eapply runs_yields_bind;
      [ exact (runs_apply1 (fun t => index_select t (map fst ev)) Hp) | | ].
    2: { intros e s' Ev. now rewrite Ev. }
    intros c rc s3 Ecv E3 Hc. rewrite Ecv. cbn [bind ok]. carry E3. clear E3.
    eapply runs_yields_bind;
      [ exact (runs_apply1 (fun t => index_select t (map snd ev)) Hp) | | ].
    2: { intros e s' Ev. now rewrite Ev. }
    intros d rd s4 Ed E4 Hd. rewrite Ed. cbn [bind ok]. carry E4. clear E4.
    split; [apply extends_refl|]. cbn [fst snd ret].
    exists ra, rb, rc, rd. auto.
  - intros [[[ra rb] rc] rd] s' E H.
    destruct (collect ev hv pv) as [e|[[[a b] c] d]]; [discriminate H|].
    destruct H as (ra' & rb' & rc' & rd' & Er & Ha & Hb & Hc & Hd).
    inversion Er; subst ra' rb' rc' rd'. now apply (Qk a b c d).
  - intros e s' H.
    destruct (collect ev hv pv) as [e'|[[[a b] c] d]].
    + inversion H; subst e'. now apply Qe.
    + destruct H as (ra' & rb' & rc' & rd' & Er & _). discriminate Er.
Qed.

Lemma runs_PointNetLayer_forward_s (l : PointNetLayer T) (h pos edge_index : nat)
  (hv pv : Tensor T) (ev : EdgeIndex) (s : Store T) :
  has s h hv -> has s pos pv -> nth_error s edge_index = Some (OEdges ev) ->
  runs (PointNetLayer_forward_s l h pos edge_index) s
       (yields (PointNetLayer_forward l hv pv ev)).
Proof.
  intros Hh Hp He. unfold PointNetLayer_forward_s, PointNetLayer_forward,
    propagate_s, propagate.
  eapply runs_collect_s; [exact He | exact Hh | exact Hp | |].
  - intros e s' Ec. now rewrite Ec.
  - intros a b c d ra rb rc rd s' Ec E Ha Hb Hc Hd. rewrite Ec. cbn [bind ok].
    carry E. clear E.
    step (runs_message_s l Ha Hb Hc Hd).
    eapply runs_read; [eapply runs_get_edges; exact He|].
    eapply runs_read; [exact (runs_get_tensor Hh)|].
    now apply runs_scatter_max_s.
Qed.

Lemma runs_relu_s {B : Type} (x : nat) (t : Tensor T) (k : nat -> M T B) (s : Store T)
  (Q : result B -> Store T -> Prop) :
  has s x t ->
  (forall y s', extends s s' -> has s' y (relu t) -> runs (k y) s' Q) ->
  runs (bindM (relu_s x) k) s Q.
Proof.
  intros H Hk. unfold relu_s.
  eapply runs_yields_bind;
    [ exact (runs_apply1 (fun t => ok (relu t)) H) | | discriminate ].
  intros t1 y s' Ev E Hy. inversion Ev; subst t1. now apply Hk.
Qed.

(** [PointNet.forward], run in a store that holds the model and the
    inputs, only allocates, and returns the logits that [PointNet_forward]
    computes from the parameters and the inputs (or raises as it does). *)
Lemma runs_PointNet_forward_s (self pos edge_index : nat) (batch : option nat)
  (m : PointNet T) (pv : Tensor T) (ev : EdgeIndex) (b : option (list Z)) (s : Store T) :
  nth_error s self = Some (OModule m) ->
  has s pos pv ->
  nth_error s edge_index = Some (OEdges ev) ->
  batch_is s batch b ->
  runs (PointNet_forward_s self pos edge_index batch) s
       (yields (PointNet_forward m pv ev b)).
Proof.
  intros Hm Hp He Hb. unfold PointNet_forward_s, PointNet_forward, PointNet_pooled.
  eapply runs_read; [eapply runs_get_module; exact Hm|].
  eapply runs_yields_bind;
    [ eapply runs_PointNetLayer_forward_s; eassumption | | ].
  2: { intros e s' Ev. now rewrite Ev. }
  intros h1 x1 s1 Ev E1 H1. rewrite Ev. cbn [bind ok]. cbv zeta.
  carry E1. clear E1 Ev.
  eapply runs_relu_s; [exact H1|]. intros y1 s2 E2 Hy1.
  carry E2. clear E2.
  eapply runs_read; [eapply runs_get_module; exact Hm|].
  eapply runs_yields_bind;
    [ eapply runs_PointNetLayer_forward_s; eassumption | | ].
  2: { intros e s' Ev. now rewrite Ev. }
  intros h2 x2 s3 Ev E3 H2. rewrite Ev. cbn [bind ok]. cbv zeta.
  carry E3. clear E3 Ev.
  eapply runs_relu_s; [exact H2|]. intros y2 s4 E4 Hy2.
  carry E4. clear E4.
  eapply runs_yields_bind;
    [ eapply runs_global_max_pool_s; eassumption | | ].
  2: { intros e s' Ev. now rewrite Ev. }
  intros p xp s5 Ev E5 Hpool. rewrite Ev. cbn [bind ok].
  carry E5. clear E5 Ev.
  eapply runs_read; [eapply runs_get_module; exact Hm|].
  unfold Linear_forward_s. now apply runs_apply1.
Qed.


Lemma returned_yields (v : result (Tensor T)) (p : result nat * Store T) :
  yields v (fst p) (snd p) -> returned p = v.
Proof.
  unfold yields, returned. destruct p as [r s']. cbn [fst snd]. destruct v as [e|t].
  - now intros ->.
  - intros (x & -> & H). unfold has in H. unfold ok. now rewrite H.
Qed.

Lemma update_same (s : Store T) (r : nat) (o : object T) :
  r < length s -> nth_error (update s r o) r = Some o.
Proof.
  revert r; induction s as [|x s IH]; intros [|r] H; simpl in *; try lia; auto.
  apply IH. lia.
Qed.

Lemma update_other (s : Store T) (r x : nat) (o : object T) :
  x <> r -> nth_error (update s r o) x = nth_error s x.
Proof.
  revert r x; induction s as [|y s IH]; intros [|r] [|x] H; simpl; auto; try lia.
Qed.

(** Setting the mode writes the model object and nothing else. *)
Lemma Module_train_s_store (self : nat) (m : PointNet T) (s : Store T) :
  nth_error s self = Some (OModule m) ->
  snd (Module_train_s self s) = update s self (OModule (Module_train m)).
Proof.
  intros H. cbv [Module_train_s bindM get_module get ret lift put ok raise].
  now rewrite H.
Qed.

Lemma Module_eval_s_store (self : nat) (m : PointNet T) (s : Store T) :
  nth_error s self = Some (OModule m) ->
  snd (Module_eval_s self s) = update s self (OModule (Module_eval m)).
Proof.
  intros H. cbv [Module_eval_s bindM get_module get ret lift put ok raise].
  now rewrite H.
Qed.

Section Stateless.

Variables (s : Store T) (self pos edge_index : nat) (batch : option nat).
Variables (m : PointNet T) (pv : Tensor T) (ev : EdgeIndex) (b : option (list Z)).
Hypothesis Hm : nth_error s self = Some (OModule m).
Hypothesis Hp : nth_error s pos = Some (OTensor pv).
Hypothesis He : nth_error s edge_index = Some (OEdges ev).
Hypothesis Hb : batch_is s batch b.

Lemma call_returns (s' : Store T) (m' : PointNet T) :
  nth_error s' self = Some (OModule m') ->
  nth_error s' pos = Some (OTensor pv) ->
  nth_error s' edge_index = Some (OEdges ev) ->
  batch_is s' batch b ->
  extends s' (snd (Module_call_s self pos edge_index batch s'))
  /\ returned (Module_call_s self pos edge_index batch s') = PointNet_forward m' pv ev b.
Proof.
  intros Hm' Hp' He' Hb'.
  destruct (@runs_PointNet_forward_s self pos edge_index batch m' pv ev b s'
              Hm' Hp' He' Hb') as [E Y].
  split; [exact E | now apply returned_yields].
Qed.

Lemma call_after_mode (f : PointNet T -> PointNet T) :
  (forall m0, conv1 (f m0) = conv1 m0 /\ conv2 (f m0) = conv2 m0
              /\ classifier (f m0) = classifier m0) ->
  returned (Module_call_s self pos edge_index batch (update s self (OModule (f m))))
  = PointNet_forward m pv ev b.
Proof.
  intros Hf.
  assert (Ls : self < length s) by (apply nth_error_Some; congruence).
  assert (Np : pos <> self) by (intros ->; congruence).
  assert (Ne : edge_index <> self) by (intros ->; congruence).
  destruct (@call_returns (update s self (OModule (f m))) (f m)) as [_ R].
  - now apply update_same.
  - now rewrite update_other.
  - now rewrite update_other.
  - destruct batch as [r|], b as [v|]; simpl in *; try tauto.
    rewrite update_other; [exact Hb | intros ->; congruence].
  - rewrite R. unfold PointNet_forward, PointNet_pooled.
    destruct (Hf m) as (-> & -> & ->). reflexivity.
Qed.

End Stateless.

(** C7 (statelessness).  Run in a store that holds the model, the
    positions, the edge list and the batch vector, a call of the model
    changes no object of the store: the store afterwards is the store
    before, followed by the tensors the call allocated (the one in-place
    operation, the reduction inside [scatter], writes to a tensor the call
    has itself allocated).  This holds whether the call returns or raises.
    The logits it returns are those [PointNet_forward] computes from the
    parameters and the inputs; a second call, in the store the first one
    left, returns the same logits; and so does a call after [model.train()]
    or after [model.eval()], which do assign the mode flag in the store. *)
Theorem C7_forward_is_stateless
  (s : Store T) (self pos edge_index : nat) (batch : option nat)
  (m : PointNet T) (pv : Tensor T) (ev : EdgeIndex) (b : option (list Z)) :
  nth_error s self = Some (OModule m) ->
  nth_error s pos = Some (OTensor pv) ->
  nth_error s edge_index = Some (OEdges ev) ->
  batch_is s batch b ->
  (exists allocated, snd (Module_call_s self pos edge_index batch s) = s ++ allocated)
  /\ returned (Module_call_s self pos edge_index batch s) = PointNet_forward m pv ev b
  /\ returned (Module_call_s self pos edge_index batch
                 (snd (Module_call_s self pos edge_index batch s)))
     = returned (Module_call_s self pos edge_index batch s)
  /\ nth_error (snd (Module_train_s self s)) self = Some (OModule (Module_train m))
  /\ returned (Module_call_s self pos edge_index batch (snd (Module_train_s self s)))
     = returned (Module_call_s self pos edge_index batch s)
  /\ nth_error (snd (Module_eval_s self s)) self = Some (OModule (Module_eval m))
  /\ returned (Module_call_s self pos edge_index batch (snd (Module_eval_s self s)))
     = returned (Module_call_s self pos edge_index batch s).
Proof.
  intros Hm Hp He Hb.
  assert (Ls : self < length s) by (apply nth_error_Some; congruence).
  destruct (@call_returns self pos edge_index batch pv ev b s m Hm Hp He Hb) as [E R].
  split; [exact E|]. split; [exact R|]. rewrite R. split; [|split; [|split; [|split]]].
  - destruct (@call_returns self pos edge_index batch pv ev b
                (snd (Module_call_s self pos edge_index batch s)) m) as [_ R2]; auto.
    + eapply lookup_extends; eauto.
    + eapply lookup_extends; eauto.
    + eapply lookup_extends; eauto.
    + eapply batch_is_extends; eauto.
  - rewrite (@Module_train_s_store self m s Hm). now apply update_same.
  - rewrite (@Module_train_s_store self m s Hm).
    apply call_after_mode; auto.
  - rewrite (@Module_eval_s_store self m s Hm). now apply update_same.
  - rewrite (@Module_eval_s_store self m s Hm).
    apply call_after_mode; auto.
Qed.

End ModeClaims.

(** * Maxima in the presence of NaN *)

(** What a predicate that holds of zero and is kept by [max] is kept by:
    [relu], the maximum reductions and the pooling. *)
Section Closed.

Context {T : Type} {Sc : Scalar T}.
Variable P : T -> Prop.
Hypothesis P_zero : P szero.
Hypothesis P_max : forall a b : T, P a -> P b -> P (smax a b).

Lemma vmax_closed (a b : list T) :
  Forall P a -> Forall P b -> Forall P (vmax a b).
Proof.
  unfold vmax. intros Fa; revert b; induction Fa as [|x a Hx _ IH];
    intros b Fb; destruct Fb as [|y b Hy Fb]; simpl; constructor; auto.
Qed.

Lemma fold_vmax_closed (ms : list (list T)) (m : list T) :
  Forall (Forall P) ms -> Forall P m -> Forall P (fold_left vmax ms m).
Proof.
  intros F; revert m; induction F as [|r t Hr _ IH]; simpl; intros m Fm; auto.
  apply IH. now apply vmax_closed.
Qed.

Lemma amax_closed (n : nat) (ms : list (list T)) :
  Forall (Forall P) ms -> Forall P (amax (repeat szero n) ms).
Proof.
  intros F. destruct F as [|m t Hm Ft]; simpl.
  - apply Forall_forall. intros x Hx. apply repeat_spec in Hx. now subst.
  - now apply fold_vmax_closed.
Qed.

Lemma relu_closed (t : Tensor T) :
  Forall (Forall P) (rows t) -> Forall (Forall P) (rows (relu t)).
Proof.
  unfold relu; simpl. intros F. apply Forall_forall. intros r Hr.
  apply in_map_iff in Hr. destruct Hr as (r0 & <- & Hr0).
  rewrite Forall_forall in F. specialize (F _ Hr0).
  apply Forall_forall. intros x Hx. apply in_map_iff in Hx.
  destruct Hx as (x0 & <- & Hx0). rewrite Forall_forall in F.
  apply P_max; auto.
Qed.

Lemma scatter_max_closed (x : Tensor T) (index : list Z) (n : nat) (p : Tensor T) :
  Forall (Forall P) (rows x) ->
  scatter_max x index n = ok p ->
  Forall (Forall P) (rows p).
Proof.
  intros F H. unfold scatter_max in H.
  apply bind_ok in H. destruct H as (index' & _ & H).
  apply bind_ok in H. destruct H as (u & _ & H).
  inversion H; subst p; clear H. simpl.
  apply Forall_forall. intros r Hr. apply in_map_iff in Hr.
  destruct Hr as (i & <- & _). apply amax_closed.
  apply Forall_forall. intros r Hr. apply received_In in Hr.
  rewrite Forall_forall in F. now apply F.
Qed.

Lemma global_max_pool_closed (x : Tensor T) (batch : option (list Z)) (p : Tensor T) :
  Forall (Forall P) (rows x) ->
  global_max_pool x batch = ok p ->
  Forall (Forall P) (rows p).
Proof.
  intros F H. destruct batch as [index|]; simpl in H.
  - eapply scatter_max_closed; eauto.
  - destruct (rows x) as [|r rs]; [discriminate|].
    inversion H; subst p; clear H. simpl.
    constructor; [|constructor].
    apply fold_vmax_closed; [exact (Forall_inv_tail F) | exact (Forall_inv F)].
Qed.

End Closed.

Lemma global_max_pool_ncols {T : Type} {Sc : Scalar T}
  (x : Tensor T) (batch : option (list Z)) (p : Tensor T) :
  global_max_pool x batch = ok p -> ncols p = ncols x.
Proof.
  intros H. destruct batch as [index|]; simpl in H.
  - unfold scatter_max in H.
    apply bind_ok in H. destruct H as (index' & _ & H).
    apply bind_ok in H. destruct H as (u & _ & H).
    now inversion H.
  - destruct (rows x) as [|r rs]; [discriminate|]. now inversion H.
Qed.

Section NaNFacts.

Context {T : Type} {Sc : Scalar T} {Sn : ScalarNaN T} {NO : NaNOrder T}.






Lemma nonneg_or_nan_zero : nonneg_or_nan (szero : T).
Proof.
  right. apply nle_refl, szero_number.
Qed.

Lemma nonneg_or_nan_smax (a b : T) :
  nonneg_or_nan a -> nonneg_or_nan b -> nonneg_or_nan (smax a b).
Proof.
  unfold nonneg_or_nan. rewrite smax_nan. intros [->|Ha]; [now left|].
  intros [->|Hb]; [left; apply orb_true_r|].
  destruct (is_nan a) eqn:Ea; [now left|].
  destruct (is_nan b) eqn:Eb; [now left|].
  right. eapply nle_trans; [exact Ha | now apply nmax_ub].
Qed.

(** Whatever goes into [relu], what comes out is NaN or at least zero. *)
Lemma nonneg_or_nan_relu (x : T) : nonneg_or_nan (srelu x).
Proof.
  unfold nonneg_or_nan, srelu. rewrite smax_nan, szero_number. simpl.
  destruct (is_nan x) eqn:Ex; [now left|].
  right. apply nmax_ub; [apply szero_number | exact Ex].
Qed.

Lemma relu_nonneg_or_nan (t : Tensor T) :
  Forall (Forall nonneg_or_nan) (rows (relu t)).
Proof.
  unfold relu; simpl. apply Forall_forall. intros r Hr.
  apply in_map_iff in Hr. destruct Hr as (r0 & <- & _).
  apply Forall_forall. intros x Hx. apply in_map_iff in Hx.
  destruct Hx as (x0 & <- & _). apply nonneg_or_nan_relu.
Qed.

Lemma nonneg_number_zero : nonneg_number szero.
Proof.
  split; [apply szero_number | apply nle_refl, szero_number].
Qed.

Lemma nonneg_number_smax (a b : T) :
  nonneg_number a -> nonneg_number b -> nonneg_number (smax a b).
Proof.
  intros [Na Ha] [Nb Hb]. split.
  - now rewrite smax_nan, Na, Nb.
  - eapply nle_trans; [exact Ha | now apply nmax_ub].
Qed.

Lemma relu_nonneg_number (t : Tensor T) :
  numbers (rows t) -> Forall (Forall nonneg_number) (rows (relu t)).
Proof.
  unfold numbers, relu; simpl. intros F. apply Forall_forall. intros r Hr.
  apply in_map_iff in Hr. destruct Hr as (r0 & <- & Hr0).
  rewrite Forall_forall in F. specialize (F _ Hr0). rewrite Forall_forall in F.
  apply Forall_forall. intros x Hx. apply in_map_iff in Hx.
  destruct Hx as (x0 & <- & Hx0). specialize (F _ Hx0). unfold srelu. split.
  - now rewrite smax_nan, szero_number, F.
  - apply nmax_ub; [apply szero_number | exact F].
Qed.

End NaNFacts.

(** * The claims about the order *)

Section OrderClaims.

Context {T : Type} {Sc : Scalar T} {Sn : ScalarNaN T} {NO : NaNOrder T}.

(** C10, as the code has it (pooled features).  Whenever [PointNet.forward]
    reaches the classifier, every entry of every pooled per-object feature
    vector is at least zero or NaN: [relu] and the maximum hand NaN on.
    When the second layer put out numbers only, every entry is at least
    zero.  For a model with the notebook's shapes the vectors have 32
    entries. *)
Theorem C10_pooled_features_nonnegative_or_nan
  (m : PointNet T) (num_classes : nat) (pos : Tensor T) (edge_index : EdgeIndex)
  (batch : option (list Z)) (p : Tensor T) :
  PointNet_wf m num_classes ->
  PointNet_pooled m pos edge_index batch = ok p ->
  ncols p = 32
  /\ Forall (Forall nonneg_or_nan) (rows p)
  /\ (numbers (rows (layer_out (conv2 m) (relu (layer_out (conv1 m) pos pos edge_index))
                       pos edge_index)) ->
      Forall (Forall (fun x => sle szero x)) (rows p)).
Proof.
  intros Wm H. apply PointNet_pooled_ok_iff in H. destruct H as (_ & _ & H).
  split; [|split].
  - rewrite (global_max_pool_ncols _ _ H). unfold point_features; simpl.
    now destruct Wm as (_ & (_ & _ & _ & _ & _ & O2) & _).
  - eapply (global_max_pool_closed nonneg_or_nan_zero nonneg_or_nan_smax);
      [|exact H].
    apply relu_nonneg_or_nan.
  - intros Nm.
    assert (F : Forall (Forall nonneg_number) (rows p)).
    { eapply (global_max_pool_closed nonneg_number_zero nonneg_number_smax);
        [|exact H].
      now apply relu_nonneg_number. }
    eapply Forall_impl; [|exact F].
    intros r Fr. eapply Forall_impl; [|exact Fr]. now intros x [_ Hx].
Qed.

End OrderClaims.

Section EdgeFacts.

Context {T : Type} {Sc : Scalar T}.



Lemma row_overflow (t : Tensor T) (k : nat) : nrows t <= k -> row t k = [].
Proof.
  intros H. unfold row. now apply nth_overflow.
Qed.


End EdgeFacts.

Section Monotone.

Context {T : Type} {Sc : Scalar T} {Sn : ScalarNaN T} {NO : NaNOrder T}.



End Monotone.


(** C10 as stated fails.  In a batch of two objects, each owning a point,
    a NaN coordinate in the first object makes every entry of its pooled
    feature vector NaN, and NaN is not at least zero. *)
Lemma C10_counterexample :
  PointNet_pooled SampleNaN.model0 SampleNaN.pos3 SampleNaN.edges2
    (Some SampleNaN.batch3)
  = ok SampleNaN.pooled3
  /\ batch_of 2 SampleNaN.batch3
  /\ row SampleNaN.pooled3 0 = repeat NaN 32
  /\ ~ Forall (Forall (fun x => sle szero x)) (rows SampleNaN.pooled3).
Proof.
  split; [vm_compute; reflexivity|].
  split.
  { split.
    - intros b Hb. simpl in Hb.
      repeat (destruct Hb as [<-|Hb]; [reflexivity|]). destruct Hb.
    - intros b Hb. destruct b as [|[|b]]; simpl; [tauto | tauto | lia]. }
  split; [vm_compute; reflexivity|].
  intros H. vm_compute in H.
  apply Forall_inv in H. apply Forall_inv in H. exact H.
Qed.

(** * Permutations of points and edges *)

Section PermFacts.

Context {A B : Type}.




End PermFacts.

Section Relabel.

Context {T : Type} {Sc : Scalar T} {SO : ScalarOrder T}.

Variable f : nat -> nat.
Variable N : nat.
Hypothesis f_fun : bFun N f.
Hypothesis f_inj : bInjective N f.










End Relabel.

Section PermutationClaim.

Context {T : Type} {Sc : Scalar T} {SO : ScalarOrder T}.


End PermutationClaim.

(** * Pooling one object *)

Section Batch.

Context {T : Type} {Sc : Scalar T}.

Lemma received_repeat_app (z : Z) (idx : list Z) (ra rb : list (list T)) (i : nat) :
  received (repeat z (length ra) ++ idx) (ra ++ rb) i
  = (if (z =? Z.of_nat i)%Z then ra else []) ++ received idx rb i.
Proof.
  unfold received. induction ra as [|r ra IH]; simpl.
  - now destruct (z =? Z.of_nat i)%Z.
  - destruct (z =? Z.of_nat i)%Z; simpl; now rewrite IH.
Qed.

Lemma received_repeat (z : Z) (ra : list (list T)) (i : nat) :
  received (repeat z (length ra)) ra i = if (z =? Z.of_nat i)%Z then ra else [].
Proof.
  pose proof (received_repeat_app z [] ra [] i) as H.
  rewrite (app_nil_r ra), (app_nil_r (repeat z (length ra))) in H. rewrite H.
  unfold received; simpl. now rewrite app_nil_r.
Qed.

Lemma list_max_Z_repeat (z : Z) (n : nat) : list_max_Z (repeat z n) z = z.
Proof.
  unfold list_max_Z. induction n as [|n IH]; simpl; [reflexivity|].
  now rewrite Z.max_id.
Qed.

Lemma forallb_repeat (p : Z -> bool) (z : Z) (n : nat) :
  p z = true -> forallb p (repeat z n) = true.
Proof.
  intros H. induction n as [|n IH]; simpl; [reflexivity | now rewrite H].
Qed.

(** Pooling one object on its own, with the batch vector a loader builds
    for it or with none: one row, the maximum of its points' rows. *)
Lemma global_max_pool_single (x : Tensor T) (b : option (list Z)) :
  0 < nrows x ->
  b = None \/ b = Some (repeat 0%Z (nrows x)) ->
  global_max_pool x b
  = ok (mkTensor (ncols x) [amax (repeat szero (ncols x)) (rows x)]).
Proof.
  intros Hx [-> | ->]; simpl.
  - unfold nrows in Hx. destruct (rows x) as [|r rs]; [simpl in Hx; lia | reflexivity].
  - rewrite scatter_max_full by apply repeat_length.
    assert (D : infer_dim_size (repeat 0%Z (nrows x)) = 1).
    { unfold infer_dim_size. destruct (nrows x) as [|n]; [lia|]. simpl.
      now rewrite list_max_Z_repeat. }
    rewrite D, forallb_repeat by reflexivity. simpl.
    unfold nrows. now rewrite received_repeat.
Qed.

Lemma nrows_layer_out (l : PointNetLayer T) (h pos : Tensor T) (edge_index : EdgeIndex) :
  nrows (layer_out l h pos edge_index) = nrows h.
Proof.
  unfold nrows, layer_out; simpl. now rewrite length_map, length_seq.
Qed.

Lemma nrows_relu (t : Tensor T) : nrows (relu t) = nrows t.
Proof.
  unfold nrows, relu; simpl. apply length_map.
Qed.

End Batch.

(** * The claims on the sample data *)

Lemma sample_layer0_wf : PointNetLayer_wf Sample.layer0 3 32.
Proof.
  unfold PointNetLayer_wf. repeat split; vm_compute; reflexivity.
Defined.

Lemma sample_model0_wf : PointNet_wf Sample.model0 10.
Proof.
  unfold PointNet_wf, PointNetLayer_wf. repeat split; vm_compute; reflexivity.
Defined.

Lemma sample_pos4_shape : has_shape Sample.pos4 4 3.
Proof.
  unfold has_shape. repeat split; reflexivity.
Defined.




Lemma C1_edge_message_witness :
  (exists l0 g', PointNetLayer_init 3 32 Sample.rng0 = ok (l0, g')
                 /\ PointNetLayer_wf l0 3 32)
  /\ (exists h_i h_j pos_j pos_i msg,
        collect Sample.edges4 Sample.pos4 Sample.pos4 = ok (h_i, h_j, pos_j, pos_i)
        /\ PointNetLayer_message Sample.layer0 h_i h_j pos_j pos_i = ok msg
        /\ rows msg
           = map (fun e =>
                    let j := Z.to_nat (fst e) in
                    let i := Z.to_nat (snd e) in
                    linear_row (mlp_2 Sample.layer0)
                      (map srelu
                         (linear_row (mlp_0 Sample.layer0)
                            (row Sample.pos4 j
                             ++ zip_with ssub (row Sample.pos4 j) (row Sample.pos4 i)))))
                 Sample.edges4
        /\ Forall (fun e => length (edge_feat Sample.pos4 Sample.pos4 e) = 3 + 3)
             Sample.edges4
        /\ ncols msg = 32
        /\ PointNetLayer_forward Sample.layer0 Sample.pos4 Sample.pos4 Sample.edges4
           = scatter_max msg (map snd Sample.edges4) 4).
Proof.
  apply (@C1_edge_message Z _ 3 32 Sample.rng0 Sample.layer0 Sample.pos4 Sample.pos4
           Sample.edges4 4).
  - exact sample_layer0_wf.
  - exact sample_pos4_shape.
  - exact sample_pos4_shape.
  - reflexivity.
Defined.


Lemma C3_shape_contract_witness :
  (exists out,
     PointNetLayer_forward Sample.layer0 Sample.pos10 Sample.pos10 Sample.edges10 = ok out
     /\ has_shape out 10 32)
  /\ (exists logits,
        PointNet_forward Sample.model0 Sample.pos10 Sample.edges10 (Some Sample.batch10)
        = ok logits
        /\ has_shape logits 4 10).
Proof.
  assert (P : has_shape Sample.pos10 10 3) by (unfold has_shape; repeat split; reflexivity).
  apply (@C3_shape_contract Z _ Sample.layer0 3 32 Sample.model0 10
           Sample.pos10 Sample.pos10 Sample.edges10 Sample.batch10 10 4).
  - exact sample_layer0_wf.
  - exact sample_model0_wf.
  - exact P.
  - exact P.
  - reflexivity.
  - reflexivity.
  - lia.
  - split.
    + intros b Hb. simpl in Hb.
      repeat (destruct Hb as [<-|Hb]; [reflexivity|]). destruct Hb.
    + intros b Hb. do 4 (destruct b as [|b]; [simpl; tauto|]). lia.
Defined.

Lemma C4_out_of_range_rejected_witness :
  exists e,
    collect [(4, 0)]%Z Sample.pos4 Sample.pos4 = raise e
    /\ (forall message : Message,
          propagate message [(4, 0)]%Z Sample.pos4 Sample.pos4 = raise e)
    /\ PointNetLayer_forward Sample.layer0 Sample.pos4 Sample.pos4 [(4, 0)]%Z = raise e.
Proof.
  apply (@C4_out_of_range_rejected Z _ Sample.layer0 Sample.pos4 Sample.pos4 [(4, 0)]%Z).
  reflexivity.
Defined.

Lemma C7_forward_is_stateless_witness :
  (exists allocated,
     snd (Module_call_s 0 1 2 (Some 3) Sample2.store0) = Sample2.store0 ++ allocated)
  /\ returned (Module_call_s 0 1 2 (Some 3) Sample2.store0)
     = PointNet_forward Sample.model0 Sample.pos4 Sample.edges4 (Some Sample.batch4)
  /\ returned (Module_call_s 0 1 2 (Some 3)
                 (snd (Module_call_s 0 1 2 (Some 3) Sample2.store0)))
     = returned (Module_call_s 0 1 2 (Some 3) Sample2.store0)
  /\ nth_error (snd (Module_train_s 0 Sample2.store0)) 0
     = Some (OModule (Module_train Sample.model0))
  /\ returned (Module_call_s 0 1 2 (Some 3) (snd (Module_train_s 0 Sample2.store0)))
     = returned (Module_call_s 0 1 2 (Some 3) Sample2.store0)
  /\ nth_error (snd (Module_eval_s 0 Sample2.store0)) 0
     = Some (OModule (Module_eval Sample.model0))
  /\ returned (Module_call_s 0 1 2 (Some 3) (snd (Module_eval_s 0 Sample2.store0)))
     = returned (Module_call_s 0 1 2 (Some 3) Sample2.store0).
Proof.
  apply (@C7_forward_is_stateless Z _ Sample2.store0 0 1 2 (Some 3) Sample.model0
           Sample.pos4 Sample.edges4 (Some Sample.batch4)); reflexivity.
Defined.

Lemma C8_isolated_point_row_is_zero_witness :
  exists out,
    PointNetLayer_forward Sample.layer0 Sample.pos4 Sample.pos4 Sample.edges4 = ok out
    /\ row out 3 = repeat szero 32.
Proof.
  apply (@C8_isolated_point_row_is_zero Z _ Sample.layer0 3 32 Sample.pos4 Sample.pos4
           Sample.edges4 4 3).
  - exact sample_layer0_wf.
  - exact sample_pos4_shape.
  - exact sample_pos4_shape.
  - reflexivity.
  - lia.
  - intros e He. simpl in He.
    repeat (destruct He as [<-|He]; [simpl; lia|]). destruct He.
Defined.

Lemma sample_nan_layer0_wf : PointNetLayer_wf SampleNaN.layer0 3 4.
Proof.
  vm_compute. repeat split; reflexivity.
Qed.

Lemma sample_nan_model0_wf : PointNet_wf SampleNaN.model0 10.
Proof.
  vm_compute. repeat split; reflexivity.
Qed.


Lemma C10_pooled_features_nonnegative_or_nan_witness :
  ncols SampleNaN.pooled3 = 32
  /\ Forall (Forall nonneg_or_nan) (rows SampleNaN.pooled3)
  /\ (numbers (rows (layer_out (conv2 SampleNaN.model0)
                       (relu (layer_out (conv1 SampleNaN.model0) SampleNaN.pos3
                                SampleNaN.pos3 SampleNaN.edges2))
                       SampleNaN.pos3 SampleNaN.edges2)) ->
      Forall (Forall (fun x => sle szero x)) (rows SampleNaN.pooled3)).
Proof.
  apply (@C10_pooled_features_nonnegative_or_nan znan _ _ _ SampleNaN.model0 10
           SampleNaN.pos3 SampleNaN.edges2 (Some SampleNaN.batch3) SampleNaN.pooled3).
  - exact sample_nan_model0_wf.
  - vm_compute. reflexivity.
Defined.

(** * Further properties of the layer and the model *)

Section SuccessCriteria.

Context {T : Type} {Sc : Scalar T}.

(** X1.  [PointNetLayer.forward] returns a result exactly when every edge
    index lies in [[0, N)], [pos] has as many rows as [h], the columns of
    [h] and [pos] add up to the input width of the first linear map, and
    the two linear maps fit together; the result then has one row per
    point and as many columns as the second linear map has outputs. *)
Theorem X1_layer_forward_succeeds_iff
  (l : PointNetLayer T) (h pos : Tensor T) (edge_index : EdgeIndex) :
  ((exists out, PointNetLayer_forward l h pos edge_index = ok out)
   <-> edges_in_range (nrows h) edge_index = true
       /\ nrows pos = nrows h
       /\ ncols h + ncols pos = in_features (mlp_0 l)
       /\ out_features (mlp_0 l) = in_features (mlp_2 l))
  /\ (forall out, PointNetLayer_forward l h pos edge_index = ok out ->
        nrows out = nrows h /\ ncols out = out_features (mlp_2 l)).
Proof.
  split.
  - split.
    + intros [out F]. apply PointNetLayer_forward_ok_iff in F. destruct F as [V _].
      unfold layer_valid in V. rewrite !andb_true_iff, !Nat.eqb_eq in V. tauto.
    + intros (R & E & E0 & E2). exists (layer_out l h pos edge_index).
      apply PointNetLayer_forward_valid. unfold layer_valid.
      rewrite !andb_true_iff, !Nat.eqb_eq. tauto.
  - intros out F. apply PointNetLayer_forward_ok_iff in F. destruct F as [_ ->].
    unfold nrows, layer_out; simpl. now rewrite length_map, length_seq.
Qed.

Lemma in_range_infer_dim_size (b : list Z) :
  Forall (fun i => 0 <= i)%Z b -> forallb (in_range (infer_dim_size b)) b = true.
Proof.
  intros F. apply forallb_forall. intros x Hx.
  rewrite Forall_forall in F. pose proof (F x Hx) as P.
  unfold infer_dim_size. destruct b as [|i t]; [destruct Hx|].
  pose proof (@list_max_Z_ge t i x Hx) as M.
  apply in_range_spec. lia.
Qed.

Lemma in_range_nonneg (n : nat) (b : list Z) :
  forallb (in_range n) b = true -> Forall (fun i => 0 <= i)%Z b.
Proof.
  rewrite forallb_forall. intros H. apply Forall_forall. intros x Hx.
  apply H, in_range_spec in Hx. lia.
Qed.

Lemma nrows_point_features (m : PointNet T) (pos : Tensor T) (edge_index : EdgeIndex) :
  nrows (point_features m pos edge_index) = nrows pos.
Proof.
  unfold point_features.
  now rewrite nrows_relu, nrows_layer_out, nrows_relu, nrows_layer_out.
Qed.

Lemma Linear_forward_rows (c : Linear T) (p lg : Tensor T) :
  Linear_forward c p = ok lg ->
  ncols p = in_features c /\ ncols lg = out_features c
  /\ rows lg = map (linear_row c) (rows p).
Proof.
  unfold Linear_forward. intros H.
  destruct (Nat.eqb_spec (ncols p) (in_features c)) as [E|]; [|discriminate].
  inversion H; subst lg; clear H. simpl. auto.
Qed.

Lemma Linear_forward_row (c : Linear T) (p lg : Tensor T) (k : nat) :
  Linear_forward c p = ok lg -> k < nrows p ->
  row lg k = linear_row c (row p k).
Proof.
  intros H Hk. apply Linear_forward_rows in H. destruct H as (_ & _ & R).
  unfold row, nrows in *. rewrite R.
  rewrite (nth_indep _ [] (linear_row c [])) by now rewrite length_map.
  apply map_nth.
Qed.

(** X2.  For a model with the notebook's shapes and a batch vector with one
    id per point, [PointNet.forward] returns logits only if the positions
    have three columns, every edge index lies in [[0, N)] and no object id
    is negative.  When no object id reaches the number of points either
    (the pooled tensor then has no more rows than there are points), these
    conditions are also enough.  The ids need not be contiguous. *)
Theorem X2_forward_success_conditions
  (m : PointNet T) (num_classes : nat) (pos : Tensor T) (edge_index : EdgeIndex)
  (batch : list Z) :
  PointNet_wf m num_classes ->
  tensor_wf pos = true ->
  length batch = nrows pos ->
  ((exists logits, PointNet_forward m pos edge_index (Some batch) = ok logits)
   -> ncols pos = 3
      /\ edges_in_range (nrows pos) edge_index = true
      /\ Forall (fun i => 0 <= i)%Z batch)
  /\ (ncols pos = 3 ->
      edges_in_range (nrows pos) edge_index = true ->
      Forall (fun i => 0 <= i < Z.of_nat (nrows pos))%Z batch ->
      exists logits, PointNet_forward m pos edge_index (Some batch) = ok logits).
Proof.
  intros Wm Wp Lb. split.
  - intros [lg F]. unfold PointNet_forward in F.
    apply bind_ok in F. destruct F as (p & Ep & _).
    apply PointNet_pooled_ok_iff in Ep. destruct Ep as (V1 & _ & Epool).
    unfold layer_valid in V1. rewrite !andb_true_iff, !Nat.eqb_eq in V1.
    destruct V1 as (((R & _) & E0) & _).
    destruct Wm as ((_ & _ & I0 & _) & _). rewrite I0 in E0.
    split; [lia|]. split; [exact R|].
    simpl in Epool. rewrite scatter_max_full in Epool
      by now rewrite nrows_point_features.
    destruct (forallb (in_range (infer_dim_size batch)) batch) eqn:Rb; [|discriminate].
    eapply in_range_nonneg; eauto.
  - intros C R Nb'.
    assert (Nb : Forall (fun i => 0 <= i)%Z batch)
      by (eapply Forall_impl; [|exact Nb']; simpl; intros; lia).
    assert (P : has_shape pos (nrows pos) 3) by (unfold has_shape; auto).
    destruct (@PointNet_features_shape _ _ m num_classes pos edge_index (nrows pos) Wm P R)
      as (V1 & V2 & (Fn & Fc & Fw)).
    assert (Lb' : length batch = nrows (point_features m pos edge_index))
      by now rewrite Fn.
    destruct (@scatter_max_shape _ _ (point_features m pos edge_index) batch
                (infer_dim_size batch) Fw Lb' (in_range_infer_dim_size Nb))
      as (p & Ep & (Pn & Pc & Pw)).
    destruct Wm as (_ & _ & Wc & Ic & Oc).
    assert (Cp : ncols p = in_features (classifier m)) by now rewrite Pc, Fc, Ic.
    destruct (@Linear_forward_shape _ _ (classifier m) p _ Wc Pn Cp) as (y & Ey & _).
    exists y. unfold PointNet_forward.
    assert (Epool : PointNet_pooled m pos edge_index (Some batch) = ok p).
    { apply PointNet_pooled_ok_iff. repeat split; auto. }
    rewrite Epool. exact Ey.
Qed.

Lemma received_none (index : list Z) (src : list (list T)) (k : nat) :
  ~ In (Z.of_nat k) index -> received index src k = [].
Proof.
  unfold received. revert src; induction index as [|i t IH]; intros src H; [reflexivity|].
  destruct src as [|r rs]; [reflexivity|]. simpl.
  destruct (Z.eqb_spec i (Z.of_nat k)) as [E|_].
  - exfalso. apply H. now left.
  - apply IH. intros H'. apply H. now right.
Qed.

Lemma scatter_max_ok_rows (src : Tensor T) (index : list Z) (n : nat) (p : Tensor T) :
  length index = nrows src ->
  scatter_max src index n = ok p ->
  nrows p = n /\ ncols p = ncols src
  /\ forall k, k < n ->
       row p k = amax (repeat szero (ncols src)) (received index (rows src) k).
Proof.
  intros L H. rewrite (scatter_max_full _ _ _ L) in H.
  destruct (forallb (in_range n) index); [|discriminate].
  inversion H; subst p; clear H. unfold nrows, row; simpl.
  rewrite length_map, length_seq. repeat split.
  intros k Hk.
  rewrite (nth_indep _ [] ((fun i => amax (repeat szero (ncols src))
                                      (received index (rows src) i)) 0))
    by now rewrite length_map, length_seq.
  rewrite (map_nth (fun i => amax (repeat szero (ncols src))
                               (received index (rows src) i))).
  now rewrite seq_nth.
Qed.

(** X3.  The logits have one row per id from [0] up to the largest id of
    the batch vector, and an id that no point carries is no error: its
    pooled features are zero, so its logits are what the classifier makes
    of the zero vector. *)
Theorem X3_unused_object_id
  (m : PointNet T) (num_classes : nat) (pos : Tensor T) (edge_index : EdgeIndex)
  (batch : list Z) (logits : Tensor T) :
  PointNet_wf m num_classes ->
  length batch = nrows pos ->
  PointNet_forward m pos edge_index (Some batch) = ok logits ->
  nrows logits = infer_dim_size batch
  /\ forall k, k < infer_dim_size batch -> ~ In (Z.of_nat k) batch ->
       row logits k = linear_row (classifier m) (repeat szero 32).
Proof.
  intros Wm Lb F. unfold PointNet_forward in F.
  apply bind_ok in F. destruct F as (p & Ep & Ec).
  apply PointNet_pooled_ok_iff in Ep. destruct Ep as (_ & _ & Epool).
  assert (C32 : ncols (point_features m pos edge_index) = 32).
  { unfold point_features; simpl.
    now destruct Wm as (_ & (_ & _ & _ & _ & _ & ->) & _). }
  pose proof (nrows_point_features m pos edge_index) as Nf.
  cbn [global_max_pool] in Epool.
  apply scatter_max_ok_rows in Epool; [|congruence].
  destruct Epool as (Np & _ & Rp).
  pose proof (@Linear_forward_rows _ _ _ Ec) as (_ & _ & R).
  split.
  - unfold nrows in *. now rewrite R, length_map.
  - intros k Hk Hn.
    rewrite (@Linear_forward_row (classifier m) p logits k Ec) by now rewrite Np.
    rewrite (Rp k Hk), received_none by assumption.
    cbn [amax]. now rewrite C32.
Qed.

(** X4.  Row [i] of the layer's output depends only on the position of
    point [i] and on the features and positions of the sources of the
    edges into [i]: two inputs that agree there give the same row [i],
    whatever they hold elsewhere.  In particular the feature of [i] itself
    does not matter unless [i] has a self-loop. *)
Theorem X4_layer_row_is_local
  (l : PointNetLayer T) (h h' pos pos' : Tensor T) (edge_index : EdgeIndex) (i : nat)
  (out out' : Tensor T) :
  nrows h' = nrows h ->
  PointNetLayer_forward l h pos edge_index = ok out ->
  PointNetLayer_forward l h' pos' edge_index = ok out' ->
  row pos' i = row pos i ->
  (forall e, In e edge_index -> snd e = Z.of_nat i ->
     row h' (Z.to_nat (fst e)) = row h (Z.to_nat (fst e))
     /\ row pos' (Z.to_nat (fst e)) = row pos (Z.to_nat (fst e))) ->
  row out' i = row out i.
Proof.
  intros Hn F F' Pi Hsrc.
  apply PointNetLayer_forward_ok_iff in F, F'.
  destruct F as [_ ->], F' as [_ ->].
  destruct (Nat.lt_ge_cases i (nrows h)) as [Lt|Ge].
  - rewrite !row_layer_out by (try rewrite Hn; assumption).
    unfold layer_row. f_equal. apply map_ext_in. intros e He.
    unfold incoming in He. apply filter_In in He. destruct He as [He Eq].
    apply Z.eqb_eq in Eq. destruct (Hsrc e He Eq) as [Eh Ep].
    unfold edge_message, edge_feat. rewrite Eq, Nat2Z.id, Eh, Ep, Pi. reflexivity.
  - rewrite !row_overflow; auto;
      unfold nrows, layer_out; simpl; rewrite length_map, length_seq;
      fold (nrows h); fold (nrows h'); lia.
Qed.

End SuccessCriteria.

(** * Linear maps with a routine that treats every row alike *)

Section KernelFacts.

Context {T : Type} {Sc : Scalar T} {K : LinearKernel T}.

Hypothesis U : uniform_kernel.

Lemma linear_row_k_uniform (n r : nat) (l : Linear T) (x : list T) :
  linear_row_k n r l x = linear_row_k 0 0 l x.
Proof.
  unfold linear_row_k. generalize (bias l). induction (weight l) as [|w ws IH];
    intros [|b bs]; simpl; auto.
  now rewrite IH, (U n r 0 0).
Qed.

Lemma map_snd_combine_seq {A B : Type} (g : A -> B) (l : list A) (s : nat) :
  map (fun p => g (snd p)) (combine (seq s (length l)) l) = map g l.
Proof.
  revert s; induction l as [|a l IH]; intros s; simpl; [reflexivity|].
  now rewrite IH.
Qed.

Lemma Linear_forward_k_uniform (l : Linear T) (x : Tensor T) :
  Linear_forward_k l x
  = if ncols x =? in_features l
    then ok (mkTensor (out_features l) (map (linear_row_k 0 0 l) (rows x)))
    else raise RuntimeError.
Proof.
  unfold Linear_forward_k. destruct (ncols x =? in_features l); [|reflexivity].
  unfold ok. do 2 f_equal. unfold nrows.
  rewrite <- (map_snd_combine_seq (linear_row_k 0 0 l) (rows x) 0).
  apply map_ext. intros p. apply linear_row_k_uniform.
Qed.







End KernelFacts.

(** * One object of a batch *)

Section ObjectFacts.

Context {T : Type} {Sc : Scalar T} {K : LinearKernel T}.

















Lemma Linear_forward_k_row (c : Linear T) (p lg : Tensor T) (k : nat) :
  uniform_kernel ->
  Linear_forward_k c p = ok lg -> k < nrows p ->
  row lg k = linear_row_k 0 0 c (row p k).
Proof.
  intros U H Hk. rewrite (@Linear_forward_k_uniform T Sc K U) in H.
  destruct (ncols p =? in_features c); [|discriminate].
  inversion H; subst lg; clear H. unfold row, nrows in *. cbn [rows].
  rewrite (nth_indep _ [] (linear_row_k 0 0 c [])) by now rewrite length_map.
  apply map_nth.
Qed.



End ObjectFacts.

(** The rest of this file is the case of one uniform routine. *)
Section Exact.

Context {T : Type} {Sc : Scalar T}.

Lemma exact_kernel_uniform : @uniform_kernel T exact_kernel.
Proof. intros n r n' r' w x. reflexivity. Qed.

Lemma Linear_forward_k_exact (l : Linear T) (x : Tensor T) :
  @Linear_forward_k T Sc exact_kernel l x = Linear_forward l x.
Proof.
  rewrite (Linear_forward_k_uniform exact_kernel_uniform). reflexivity.
Qed.

Lemma PointNetLayer_forward_k_exact (l : PointNetLayer T) (h pos : Tensor T)
  (edge_index : EdgeIndex) :
  @PointNetLayer_forward_k T Sc exact_kernel l h pos edge_index
  = PointNetLayer_forward l h pos edge_index.
Proof.
  unfold PointNetLayer_forward_k, PointNetLayer_forward, propagate.
  destruct (collect edge_index h pos) as [e|[[[h_i h_j] pos_j] pos_i]]; [reflexivity|].
  cbn [bind]. unfold PointNetLayer_message_k, PointNetLayer_message.
  destruct (tensor_sub pos_j pos_i) as [e|d]; [reflexivity|]. cbn [bind].
  destruct (cat h_j d) as [e|ef]; [reflexivity|]. cbn [bind].
  unfold mlp_k, mlp. rewrite Linear_forward_k_exact.
  destruct (Linear_forward (mlp_0 l) ef) as [e|y]; [reflexivity|]. cbn [bind].
  now rewrite Linear_forward_k_exact.
Qed.

Lemma PointNet_forward_k_exact (m : PointNet T) (pos : Tensor T) (edge_index : EdgeIndex)
  (batch : option (list Z)) :
  @PointNet_forward_k T Sc exact_kernel m pos edge_index batch
  = PointNet_forward m pos edge_index batch.
Proof.
  unfold PointNet_forward_k, PointNet_forward, PointNet_pooled_k, PointNet_pooled.
  rewrite PointNetLayer_forward_k_exact.
  destruct (PointNetLayer_forward (conv1 m) pos pos edge_index) as [e|h1]; [reflexivity|].
  cbn [bind]. cbv zeta. rewrite PointNetLayer_forward_k_exact.
  destruct (PointNetLayer_forward (conv2 m) (relu h1) pos edge_index) as [e|h2];
    [reflexivity|].
  cbn [bind]. cbv zeta.
  destruct (global_max_pool (relu h2) batch) as [e|p]; [reflexivity|]. cbn [bind].
  apply Linear_forward_k_exact.
Qed.

End Exact.


Section EdgeSets.

Context {T : Type} {Sc : Scalar T} {SO : ScalarOrder T} {SI : ScalarIdem T}.

Lemma vmax_idem (a : list T) : vmax a a = a.
Proof.
  unfold vmax. induction a as [|x a IH]; simpl; [reflexivity|].
  now rewrite smax_idem, IH.
Qed.






Lemma amax_constant (z : list T) (L : list (list T)) :
  Forall (fun r => r = z) L -> amax z L = z.
Proof.
  intros F. destruct F as [|r t -> Ft]; [reflexivity|]. simpl.
  induction Ft as [|r t -> _ IH]; simpl; [reflexivity|].
  now rewrite vmax_idem.
Qed.

(** X9.  With an empty edge list, and [max] idempotent, the classifier only
    ever sees zeros: every row of the logits is what the classifier makes
    of the zero vector, whatever the positions and the batch vector. *)
Theorem X9_no_edges_constant_logits
  (m : PointNet T) (num_classes : nat) (pos : Tensor T) (batch : option (list Z))
  (logits : Tensor T) (k : nat) :
  PointNet_wf m num_classes ->
  PointNet_forward m pos [] batch = ok logits ->
  k < nrows logits ->
  row logits k = linear_row (classifier m) (repeat szero 32).
Proof.
  intros Wm F Hk. unfold PointNet_forward in F.
  apply bind_ok in F. destruct F as (p & Ep & Ec).
  apply PointNet_pooled_ok_iff in Ep. destruct Ep as (_ & _ & Epool).
  assert (O2 : out_features (mlp_2 (conv2 m)) = 32)
    by now destruct Wm as (_ & (_ & _ & _ & _ & _ & O2) & _).
  assert (Z0 : map srelu (repeat szero 32) = repeat szero 32).
  { rewrite map_repeat. unfold srelu. now rewrite smax_idem. }
  assert (Rf : Forall (fun r => r = repeat szero 32)
                 (rows (point_features m pos []))).
  { unfold point_features, relu, layer_out; simpl.
    apply Forall_forall. intros r Hr.
    apply in_map_iff in Hr. destruct Hr as (r0 & <- & Hr0).
    apply in_map_iff in Hr0. destruct Hr0 as (i & <- & _).
    unfold layer_row; simpl. now rewrite O2, Z0. }
  assert (Cf : ncols (point_features m pos []) = 32) by exact O2.
  remember (point_features m pos []) as f eqn:Ef. clear Ef.
  assert (Rp : Forall (fun r => r = repeat szero 32) (rows p)).
  { destruct batch as [b|]; cbn [global_max_pool] in Epool.
    - unfold scatter_max in Epool.
      apply bind_ok in Epool. destruct Epool as (index' & _ & H).
      apply bind_ok in H. destruct H as (u & _ & H).
      inversion H; subst p; clear H. cbn [rows].
      apply Forall_forall. intros r Hr. apply in_map_iff in Hr.
      destruct Hr as (i & <- & _). rewrite Cf. apply amax_constant.
      apply Forall_forall. intros r Hr. apply received_In in Hr.
      rewrite Forall_forall in Rf. now apply Rf.
    - destruct (rows f) as [|r rs]; [discriminate|].
      inversion Epool; subst p; clear Epool. simpl.
      constructor; [|constructor].
      inversion Rf as [|? ? Hr Hrs]; subst.
      apply (amax_constant (L := repeat szero 32 :: rs)). now constructor. }
  pose proof (@Linear_forward_rows _ _ _ _ _ Ec) as (_ & _ & R).
  assert (Hk' : k < nrows p) by (unfold nrows in *; now rewrite R, length_map in Hk).
  rewrite (@Linear_forward_row _ _ (classifier m) p logits k Ec Hk').
  f_equal. rewrite Forall_forall in Rp. apply Rp. unfold row. now apply nth_In.
Qed.

End EdgeSets.

Section SingleObjects.

Context {T : Type} {Sc : Scalar T}.

(** One object on its own, with no batch vector or the all-zero one: the
    logits have one row. *)
Lemma single_object_logits
  (m : PointNet T) (num_classes : nat) (pos : Tensor T) (edge_index : EdgeIndex)
  (N : nat) :
  PointNet_wf m num_classes ->
  has_shape pos N 3 -> 0 < N ->
  edges_in_range N edge_index = true ->
  exists logits,
    has_shape logits 1 num_classes
    /\ forall b, b = None \/ b = Some (repeat 0%Z N) ->
         PointNet_forward m pos edge_index b = ok logits.
Proof.
  intros Wm P HN R.
  destruct (@PointNet_features_shape _ _ m num_classes pos edge_index N Wm P R)
    as (V1 & V2 & (Fn & Fc & Fw)).
  set (f := point_features m pos edge_index) in *.
  set (p := mkTensor (ncols f) [amax (repeat szero (ncols f)) (rows f)]).
  assert (Pos : 0 < nrows f) by lia.
  destruct Wm as (_ & _ & Wc & Ic & Oc).
  assert (Cp : ncols p = in_features (classifier m))
    by (unfold p; cbn [ncols]; now rewrite Fc, Ic).
  assert (Np : nrows p = 1) by reflexivity.
  destruct (@Linear_forward_shape _ _ (classifier m) p 1 Wc Np Cp) as (y & Ey & Sy & _).
  exists y. split; [now rewrite <- Oc|].
  intros b Hb.
  assert (E : PointNet_pooled m pos edge_index b = ok p).
  { apply PointNet_pooled_ok_iff. repeat split; auto.
    apply global_max_pool_single; [exact Pos | now rewrite Fn]. }
  unfold PointNet_forward. rewrite E. exact Ey.
Qed.

(** X6.  A single non-empty object needs no batch vector: with [batch]
    absent, as for an object taken straight from the dataset,
    [PointNet.forward] returns logits of shape [[1, num_classes]], the very
    logits it returns with the all-zero batch vector. *)
Theorem X6_single_object_without_batch
  (m : PointNet T) (num_classes : nat) (pos : Tensor T) (edge_index : EdgeIndex)
  (N : nat) :
  PointNet_wf m num_classes ->
  has_shape pos N 3 -> 0 < N ->
  edges_in_range N edge_index = true ->
  exists logits,
    PointNet_forward m pos edge_index None = ok logits
    /\ has_shape logits 1 num_classes
    /\ PointNet_forward m pos edge_index (Some (repeat 0%Z N)) = ok logits.
Proof.
  intros Wm P HN R.
  destruct (single_object_logits edge_index Wm P HN R) as (lg & S1 & F).
  exists lg. split; [apply F; now left|]. split; [exact S1|].
  apply F. now right.
Qed.

(** X7.  The empty cloud is where the two ways of passing a single object
    part: without a batch vector the pooling has nothing to reduce and
    [PointNet.forward] raises, with the empty batch vector it returns
    logits with no row. *)
Theorem X7_empty_cloud
  (m : PointNet T) (num_classes : nat) (pos : Tensor T) :
  PointNet_wf m num_classes ->
  nrows pos = 0 -> ncols pos = 3 ->
  (exists e, PointNet_forward m pos [] None = raise e)
  /\ (exists logits, PointNet_forward m pos [] (Some []) = ok logits
                     /\ has_shape logits 0 num_classes).
Proof.
  intros Wm N C.
  assert (P : has_shape pos 0 3).
  { unfold has_shape, tensor_wf. repeat split; auto.
    unfold nrows in N. apply length_zero_iff_nil in N. now rewrite N. }
  destruct (@PointNet_features_shape _ _ m num_classes pos [] 0 Wm P eq_refl)
    as (V1 & V2 & (Fn & Fc & Fw)).
  assert (Rf : rows (point_features m pos []) = []).
  { unfold nrows in Fn. now apply length_zero_iff_nil. }
  split.
  - destruct (PointNet_forward m pos [] None) as [e|lg] eqn:F; [now exists e|].
    exfalso. unfold PointNet_forward in F.
    apply bind_ok in F. destruct F as (p & Ep & _).
    apply PointNet_pooled_ok_iff in Ep. destruct Ep as (_ & _ & Epool).
    cbn [global_max_pool] in Epool. rewrite Rf in Epool. discriminate.
  - set (p := mkTensor (ncols (point_features m pos [])) (@nil (list T))).
    assert (Ep : PointNet_pooled m pos [] (Some []) = ok p).
    { apply PointNet_pooled_ok_iff. repeat split; auto.
      cbn [global_max_pool]. rewrite scatter_max_full by (now rewrite Fn).
      reflexivity. }
    destruct Wm as (_ & _ & Wc & Ic & Oc).
    assert (Cp : ncols p = in_features (classifier m))
      by (unfold p; cbn [ncols]; now rewrite Fc, Ic).
    assert (Np : nrows p = 0) by reflexivity.
    destruct (@Linear_forward_shape _ _ (classifier m) p 0 Wc Np Cp) as (y & Ey & Sy & _).
    exists y. unfold PointNet_forward. rewrite Ep. cbn [bind ok].
    rewrite <- Oc. auto.
Qed.

Lemma concat_length_rect (w : list (list T)) (o i : nat) :
  length w = o -> forallb (fun r => length r =? i) w = true ->
  length (concat w) = o * i.
Proof.
  revert o; induction w as [|r w IH]; simpl; intros o Lo F.
  - now subst.
  - apply andb_true_iff in F. destruct F as [Fr Fw]. apply Nat.eqb_eq in Fr.
    rewrite length_app, Fr, (@IH (length w) eq_refl Fw). subst o. simpl. lia.
Qed.

Lemma numel_Linear (l : Linear T) :
  Linear_wf l = true ->
  numel (Linear_parameters l) = out_features l * in_features l + out_features l.
Proof.
  unfold Linear_wf, numel, Linear_parameters. rewrite !andb_true_iff, !Nat.eqb_eq.
  intros [[W F] B]. simpl. rewrite (@concat_length_rect (weight l) _ _ W F), B. lia.
Qed.

Lemma numel_app (a b : list (list T)) : numel (a ++ b) = numel a + numel b.
Proof.
  unfold numel. now rewrite map_app, list_sum_app.
Qed.

End SingleObjects.

(** * Construction *)

Unset Implicit Arguments.

Section Construction.

Context {T : Type} {Sc : Scalar T}.

Lemma PointNet_init_wf (num_classes : Z) (g : Rng T) (m : PointNet T) (g' : Rng T) :
  PointNet_init num_classes g = ok (m, g') ->
  PointNet_wf m (Z.to_nat num_classes) /\ training m = true.
Proof.
  intros E.
  assert (Hnc : (0 <= num_classes)%Z).
  { pose proof (PointNet_init_is_ok num_classes g) as H. rewrite E in H.
    cbn [is_ok ok] in H. symmetry in H. now apply Z.leb_le in H. }
  destruct (PointNet_init_ok g Hnc) as (m0 & g0 & E0 & W).
  rewrite E in E0. inversion E0; subst m0 g0. exact W.
Qed.

(** X8.  [PointNet()] builds, in training mode, two layers of shapes
    [3 -> 32] and [32 -> 32] and a classifier [32 -> num_classes]; its
    [parameters()] are ten tensors holding [3488 + 33 * num_classes]
    numbers in all. *)
Theorem X8_constructed_model
  (num_classes : Z) (g : Rng T) (m : PointNet T) (g' : Rng T) :
  PointNet_init num_classes g = ok (m, g') ->
  PointNet_wf m (Z.to_nat num_classes)
  /\ training m = true
  /\ length (Module_parameters m) = 10
  /\ numel (Module_parameters m) = 3488 + 33 * Z.to_nat num_classes.
Proof.
  intros E. destruct (PointNet_init_wf num_classes g m g' E) as [W Tr].
  split; [exact W|]. split; [exact Tr|]. split; [reflexivity|].
  destruct W as ((A0 & A2 & I10 & O10 & I12 & O12)
                 & (B0 & B2 & I20 & O20 & I22 & O22) & Wc & Ic & Oc).
  unfold Module_parameters, PointNetLayer_parameters.
  rewrite !numel_app, !numel_Linear by assumption.
  rewrite I10, O10, I12, O12, I20, O20, I22, O22, Ic, Oc. lia.
Qed.

End Construction.

Set Implicit Arguments.

(** * Evaluation *)

Section EvaluationFacts.

Context {T : Type} {Sc : Scalar T} {Cmp : ScalarCmp T}.

Lemma PointNet_forward_nrows (m : PointNet T) (pos : Tensor T) (edge_index : EdgeIndex)
  (batch : option (list Z)) (logits : Tensor T) :
  PointNet_forward m pos edge_index batch = ok logits ->
  nrows logits = match batch with
                 | Some b => infer_dim_size b
                 | None => 1
                 end.
Proof.
  intros F. unfold PointNet_forward in F.
  apply bind_ok in F. destruct F as (p & Ep & Ec).
  apply PointNet_pooled_ok_iff in Ep. destruct Ep as (_ & _ & Epool).
  apply Linear_forward_rows in Ec. destruct Ec as (_ & _ & R).
  unfold nrows. rewrite R, length_map.
  remember (point_features m pos edge_index) as f eqn:Ef. clear Ef.
  destruct batch as [b|]; cbn [global_max_pool] in Epool.
  - unfold scatter_max in Epool.
    apply bind_ok in Epool. destruct Epool as (index' & _ & H).
    apply bind_ok in H. destruct H as (u & _ & H).
    inversion H; subst p; clear H. cbn [rows].
    now rewrite length_map, length_seq.
  - destruct (rows f); [discriminate|].
    inversion Epool; subst p. reflexivity.
Qed.

Lemma argmax_ok (t : Tensor T) (pred : list Z) :
  argmax t = ok pred ->
  ncols t <> 0 /\ pred = map (fun r => Z.of_nat (argmax_row r)) (rows t).
Proof.
  unfold argmax. destruct (Nat.eqb_spec (ncols t) 0) as [|NE]; [discriminate|].
  intros H. inversion H. auto.
Qed.

Lemma count_eq_le (a b : list Z) : count_eq a b <= length b.
Proof.
  unfold count_eq.
  etransitivity; [apply filter_length_le|]. rewrite length_combine. lia.
Qed.

Lemma eq_sum_le (pred y : list Z) (c : nat) :
  length pred = length y -> eq_sum pred y = ok c -> c <= length y.
Proof.
  unfold eq_sum. intros L H. rewrite L, Nat.eqb_refl in H.
  inversion H. apply count_eq_le.
Qed.

Lemma batch_correct_le (m : PointNet T) (data : Data T) (c : nat) :
  labelled data -> batch_correct m data = ok c -> c <= length (Data_y data).
Proof.
  unfold labelled, batch_correct, Module_call. cbn [snd]. intros Lab H.
  apply bind_ok in H. destruct H as (lg & F & H).
  apply bind_ok in H. destruct H as (pred & A & H).
  apply PointNet_forward_nrows in F. apply argmax_ok in A. destruct A as [_ ->].
  apply eq_sum_le in H; [exact H|].
  rewrite length_map. fold (nrows lg). rewrite F.
  destruct (Data_batch data); now rewrite Lab.
Qed.

Lemma test_loop_cons (m : PointNet T) (data : Data T) (rest : list (Data T)) (a : nat) :
  test_loop m (data :: rest) a
  = bind (batch_correct m data) (fun c => test_loop m rest (a + c)).
Proof.
  unfold batch_correct. cbn [test_loop].
  destruct (snd (Module_call m (Data_pos data) (Data_edge_index data)
                   (Data_batch data))) as [e|lg]; [reflexivity|].
  cbn [bind]. destruct (argmax lg); reflexivity.
Qed.

Lemma test_loop_bound (m : PointNet T) (test_loader : list (Data T)) (a c : nat) :
  Forall labelled test_loader ->
  test_loop m test_loader a = ok c ->
  a <= c <= a + list_sum (map (fun d => length (Data_y d)) test_loader).
Proof.
  intros F; revert a; induction F as [|d rest Ld _ IH]; intros a H.
  - inversion H. simpl. lia.
  - rewrite test_loop_cons in H. apply bind_ok in H. destruct H as (k & Hk & H).
    apply (batch_correct_le _ _ Ld) in Hk. apply IH in H. simpl. lia.
Qed.

(** X10.  When every batch carries one label per object and
    [len(test_loader.dataset)] is the number of labels, the accuracy
    [test()] returns lies between 0 and 1. *)
Theorem X10_test_accuracy_in_unit_interval
  (m : PointNet T) (test_loader : list (Data T)) (len_dataset : nat)
  (acc : QArith_base.Q) :
  Forall labelled test_loader ->
  len_dataset = list_sum (map (fun d => length (Data_y d)) test_loader) ->
  snd (test m test_loader len_dataset) = inr acc ->
  QArith_base.Qle (QArith_base.Qmake 0 1) acc
  /\ QArith_base.Qle acc (QArith_base.Qmake 1 1).
Proof.
  intros Lab Len H. unfold test in H.
  destruct (test_loop (Module_eval m) test_loader 0) as [e|c] eqn:L; [discriminate|].
  destruct (Nat.eqb_spec len_dataset 0) as [|NZ]; [discriminate|].
  cbn [snd] in H. inversion H; subst acc; clear H.
  eapply test_loop_bound in L; [|exact Lab]. rewrite <- Len in L.
  unfold QArith_base.Qle; simpl. split; lia.
Qed.

Lemma test_loop_ok_all (m : PointNet T) (test_loader : list (Data T)) (a c : nat) :
  test_loop m test_loader a = ok c ->
  Forall (fun d => exists k, batch_correct m d = ok k) test_loader.
Proof.
  revert a; induction test_loader as [|d rest IH]; intros a H; [constructor|].
  rewrite test_loop_cons in H. apply bind_ok in H. destruct H as (k & Hk & H).
  constructor; [now exists k | eapply IH; eauto].
Qed.

(** X11.  [test()] returns an accuracy only when the dataset is not empty
    and the forward pass, in evaluation mode, went through on every batch
    of the loader: one failing batch, or an empty dataset (a division by
    zero), and there is no accuracy at all. *)
Theorem X11_test_all_or_nothing
  (m : PointNet T) (test_loader : list (Data T)) (len_dataset : nat)
  (acc : QArith_base.Q) :
  snd (test m test_loader len_dataset) = inr acc ->
  0 < len_dataset
  /\ Forall (fun d => exists logits,
               PointNet_forward (Module_eval m) (Data_pos d) (Data_edge_index d)
                 (Data_batch d) = ok logits)
       test_loader.
Proof.
  intros H. unfold test in H.
  destruct (test_loop (Module_eval m) test_loader 0) as [e|c] eqn:L; [discriminate|].
  destruct (Nat.eqb_spec len_dataset 0) as [|NZ]; [discriminate|].
  split; [lia|].
  apply test_loop_ok_all in L. eapply Forall_impl; [|exact L].
  intros d [k Hk]. unfold batch_correct, Module_call in Hk. cbn [snd] in Hk.
  apply bind_ok in Hk. destruct Hk as (lg & F & _). now exists lg.
Qed.

Lemma test_loop_perm (m : PointNet T) (l l' : list (Data T)) :
  Permutation l l' ->
  forall a c, test_loop m l a = ok c -> test_loop m l' a = ok c.
Proof.
  induction 1 as [|x l l' _ IH|x y l|l l' l'' _ IH1 _ IH2]; intros a c H.
  - exact H.
  - rewrite test_loop_cons in *. apply bind_ok in H. destruct H as (k & Hk & H).
    rewrite Hk. cbn [bind]. now apply IH.
  - rewrite !test_loop_cons in *.
    apply bind_ok in H. destruct H as (ky & Hy & H).
    rewrite test_loop_cons in H.
    apply bind_ok in H. destruct H as (kx & Hx & H).
    rewrite Hx. cbn [bind]. rewrite test_loop_cons, Hy. cbn [bind].
    replace (a + kx + ky) with (a + ky + kx) by lia. exact H.
  - now apply IH2, IH1.
Qed.

(** X12.  The accuracy does not depend on the order in which the loader
    yields its batches. *)
Theorem X12_test_order_of_batches
  (m : PointNet T) (test_loader test_loader' : list (Data T)) (len_dataset : nat)
  (acc : QArith_base.Q) :
  Permutation test_loader test_loader' ->
  snd (test m test_loader len_dataset) = inr acc ->
  snd (test m test_loader' len_dataset) = inr acc.
Proof.
  intros P H. unfold test in *.
  destruct (test_loop (Module_eval m) test_loader 0) as [e|c] eqn:L; [discriminate|].
  rewrite (test_loop_perm _ P _ L). exact H.
Qed.

End EvaluationFacts.

Section Prediction.

Context {T : Type} {Sc : Scalar T} {Cmp : ScalarCmp T}.
Context {SO : ScalarOrder T} {CO : ScalarCmpOrder T}.

(** The running maximum of [argmax_from]: either the candidate it started
    with survives, and nothing later beats it, or the result points into
    the remaining entries, at one that beats the candidate and all of
    them. *)
Lemma argmax_from_spec (r : list T) :
  forall (best : T) (besti i : nat),
    besti < i ->
    let k := argmax_from best besti i r in
    (k = besti /\ Forall (fun x => sle x best) r)
    \/ (i <= k < i + length r
        /\ sle best (nth (k - i) r szero)
        /\ Forall (fun x => sle x (nth (k - i) r szero)) r).
Proof.
  induction r as [|x t IH]; intros best besti i Hi; cbn [argmax_from].
  - left. split; [reflexivity | constructor].
  - destruct (sltb best x) eqn:C.
    + apply sltb_sle in C. right.
      destruct (IH x i (S i) (Nat.lt_succ_diag_r i)) as [[-> F]|(Hk & B & F)].
      * rewrite Nat.sub_diag. cbn [nth length]. split; [lia|]. split; [exact C|].
        constructor; [apply sle_refl | exact F].
      * set (k := argmax_from x i (S i) t) in *.
        replace (k - i) with (S (k - S i)) by lia. cbn [nth length].
        split; [lia|]. split; [eapply sle_trans; eauto|].
        constructor; [exact B | exact F].
    + apply sltb_total in C.
      assert (Hi' : besti < S i) by lia.
      destruct (IH best besti (S i) Hi') as [[-> F]|(Hk & B & F)].
      * left. split; [reflexivity|]. now constructor.
      * right. set (k := argmax_from best besti (S i) t) in *.
        replace (k - i) with (S (k - S i)) by lia. cbn [nth length].
        split; [lia|]. split; [exact B|].
        constructor; [eapply sle_trans; eauto | exact F].
Qed.

Lemma argmax_row_spec (r : list T) :
  r <> [] ->
  argmax_row r < length r
  /\ Forall (fun x => sle x (nth (argmax_row r) r szero)) r.
Proof.
  destruct r as [|x t]; [congruence|]. intros _.
  cbn [argmax_row length].
  destruct (@argmax_from_spec t x 0 1 Nat.lt_0_1) as [[-> F]|(Hk & B & F)].
  - split; [lia|]. cbn [nth]. constructor; [apply sle_refl | exact F].
  - set (k := argmax_from x 0 1 t) in *.
    assert (N : nth k (x :: t) szero = nth (k - 1) t szero).
    { destruct k as [|k']; [lia|]. cbn [nth]. now rewrite Nat.sub_succ, Nat.sub_0_r. }
    split; [lia|]. rewrite N.
    constructor; [exact B | exact F].
Qed.

(** X13.  What the prediction cell prints is well defined only for a
    single object: when [predict] returns a class [k], the logits have
    exactly one row, [k] is an index into it, below [num_classes], and no
    logit is above the one at [k]. *)
Theorem X13_predict_is_argmax
  (m : PointNet T) (num_classes : nat) (data : Data T) (k : Z) :
  PointNet_wf m num_classes ->
  predict m data = ok k ->
  (0 <= k < Z.of_nat num_classes)%Z
  /\ exists r,
       PointNet_forward m (Data_pos data) (Data_edge_index data) (Data_batch data)
       = ok (mkTensor num_classes [r])
       /\ Forall (fun x => sle x (nth (Z.to_nat k) r szero)) r.
Proof.
  intros Wm H. unfold predict, Module_call in H. cbn [snd] in H.
  apply bind_ok in H. destruct H as (lg & F & H).
  apply bind_ok in H. destruct H as (pred & A & I).
  apply argmax_ok in A. destruct A as [NZ ->].
  unfold PointNet_forward in F. pose proof F as F0.
  apply bind_ok in F. destruct F as (p & _ & Ec).
  pose proof Ec as Ec0.
  apply Linear_forward_rows in Ec. destruct Ec as (_ & Cl & R).
  destruct Wm as (_ & _ & Wc & _ & Oc).
  destruct lg as [c rs]. cbn [ncols rows] in *.
  destruct rs as [|r [|r' rs]]; try discriminate.
  cbn [map item] in I. inversion I; subst k; clear I.
  assert (Lr : length r = num_classes).
  { assert (In r (map (linear_row (classifier m)) (rows p))) by (rewrite <- R; now left).
    apply in_map_iff in H. destruct H as (x & <- & _).
    rewrite linear_row_length by assumption. exact Oc. }
  assert (NE : r <> []).
  { intros ->. simpl in Lr. congruence. }
  destruct (argmax_row_spec NE) as [Lt Mx].
  split; [lia|]. exists r. rewrite Nat2Z.id. split; [|exact Mx].
  unfold PointNet_forward. rewrite F0. unfold ok. now rewrite Cl, Oc.
Qed.

(** X14.  For a single non-empty object without batch vector, a model with
    the notebook's shapes and at least one class, and one name per class,
    the prediction cell always finds a name: [predicted_class] returns one
    of [class_names]. *)
Theorem X14_predicted_class_is_a_class_name
  {A : Type} (m : PointNet T) (class_names : list A) (data : Data T) (N : nat) :
  PointNet_wf m (length class_names) ->
  class_names <> [] ->
  has_shape (Data_pos data) N 3 -> 0 < N ->
  edges_in_range N (Data_edge_index data) = true ->
  Data_batch data = None ->
  exists name, predicted_class m class_names data = ok name /\ In name class_names.
Proof.
  intros Wm NE P HN R Bn.
  destruct (single_object_logits (Data_edge_index data) Wm P HN R)
    as (lg & (Ln & Lc & Lw) & F).
  specialize (F None (or_introl eq_refl)).
  assert (Hc : 0 < length class_names) by (destruct class_names; [congruence | simpl; lia]).
  destruct lg as [c rs]. unfold nrows, tensor_wf in *. cbn [ncols rows] in *.
  destruct rs as [|r [|r' rs]]; try discriminate.
  cbn [forallb] in Lw. rewrite andb_true_r in Lw. apply Nat.eqb_eq in Lw.
  assert (NEr : r <> []) by (intros ->; simpl in Lw; lia).
  destruct (argmax_row_spec NEr) as [Lt _].
  unfold predicted_class, predict, Module_call. cbn [snd]. rewrite Bn, F.
  cbn [bind ok]. unfold argmax. cbn [ncols rows].
  destruct (Nat.eqb_spec c 0) as [|_]; [lia|]. cbn [bind ok map item].
  unfold getitem.
  destruct (Z.ltb_spec (Z.of_nat (argmax_row r)) 0) as [|_]; [lia|].
  rewrite Nat2Z.id.
  destruct (nth_error class_names (argmax_row r)) as [a|] eqn:E.
  - destruct (Z.leb_spec 0 (Z.of_nat (argmax_row r))) as [_|]; [|lia].
    exists a. split; [reflexivity|]. eapply nth_error_In; eauto.
  - apply nth_error_None in E. lia.
Qed.

End Prediction.

(** * The further properties on the sample data *)




Lemma X2_forward_success_conditions_witness :
  exists logits,
    PointNet_forward Sample.model0 Sample.pos4 Sample.edges4 (Some Sample2.batch_gap)
    = ok logits.
Proof.
  destruct (@X2_forward_success_conditions Z _ Sample.model0 10 Sample.pos4
              Sample.edges4 Sample2.batch_gap) as [_ Enough].
  - exact sample_model0_wf.
  - reflexivity.
  - reflexivity.
  - apply Enough.
    + reflexivity.
    + reflexivity.
    + repeat constructor; simpl; lia.
Defined.

Lemma X3_unused_object_id_witness :
  nrows Sample2.logits_gap = infer_dim_size Sample2.batch_gap
  /\ forall k, k < infer_dim_size Sample2.batch_gap ->
       ~ In (Z.of_nat k) Sample2.batch_gap ->
       row Sample2.logits_gap k
       = linear_row (classifier Sample.model0) (repeat szero 32).
Proof.
  apply (@X3_unused_object_id Z _ Sample.model0 10 Sample.pos4 Sample.edges4
           Sample2.batch_gap Sample2.logits_gap).
  - exact sample_model0_wf.
  - reflexivity.
  - vm_compute. reflexivity.
Defined.

Lemma X4_layer_row_is_local_witness :
  row Sample2.out_h4' 0 = row Sample2.out_h4 0.
Proof.
  apply (@X4_layer_row_is_local Z _ Sample.layer0 Sample.pos4 Sample2.h4'
           Sample.pos4 Sample.pos4 Sample.edges4 0 Sample2.out_h4 Sample2.out_h4').
  - reflexivity.
  - vm_compute. reflexivity.
  - vm_compute. reflexivity.
  - reflexivity.
  - intros e He Hs. simpl in He.
    repeat (destruct He as [<-|He]; [first [discriminate Hs | split; reflexivity]|]).
    destruct He.
Defined.


Lemma X6_single_object_without_batch_witness :
  exists logits,
    PointNet_forward Sample.model0 Sample.pos4 Sample.edges4 None = ok logits
    /\ has_shape logits 1 10
    /\ PointNet_forward Sample.model0 Sample.pos4 Sample.edges4 (Some (repeat 0%Z 4))
       = ok logits.
Proof.
  apply (@X6_single_object_without_batch Z _ Sample.model0 10 Sample.pos4
           Sample.edges4 4).
  - exact sample_model0_wf.
  - exact sample_pos4_shape.
  - lia.
  - reflexivity.
Defined.

Lemma X7_empty_cloud_witness :
  (exists e, PointNet_forward Sample.model0 Sample2.empty_cloud [] None = raise e)
  /\ (exists logits,
        PointNet_forward Sample.model0 Sample2.empty_cloud [] (Some []) = ok logits
        /\ has_shape logits 0 10).
Proof.
  apply (@X7_empty_cloud Z _ Sample.model0 10 Sample2.empty_cloud).
  - exact sample_model0_wf.
  - reflexivity.
  - reflexivity.
Defined.

Lemma X8_constructed_model_witness :
  PointNet_wf (fst Sample2.init0) (Z.to_nat 10)
  /\ training (fst Sample2.init0) = true
  /\ length (Module_parameters (fst Sample2.init0)) = 10
  /\ numel (Module_parameters (fst Sample2.init0)) = 3488 + 33 * Z.to_nat 10.
Proof.
  apply (@X8_constructed_model Z 10%Z Sample.rng0 (fst Sample2.init0)
           (snd Sample2.init0)).
  vm_compute. reflexivity.
Defined.

Lemma X9_no_edges_constant_logits_witness :
  row Sample2.logits_no_edges 1
  = linear_row (classifier Sample.model0) (repeat szero 32).
Proof.
  apply (@X9_no_edges_constant_logits Z _ _ Sample.model0 10 Sample.pos4
           (Some Sample.batch4) Sample2.logits_no_edges 1).
  - exact sample_model0_wf.
  - vm_compute. reflexivity.
  - vm_compute. lia.
Defined.

Lemma sample_loader_labelled : Forall labelled Sample2.loader.
Proof.
  repeat constructor.
Defined.

Lemma X10_test_accuracy_in_unit_interval_witness :
  QArith_base.Qle (QArith_base.Qmake 0 1) Sample2.accuracy0
  /\ QArith_base.Qle Sample2.accuracy0 (QArith_base.Qmake 1 1).
Proof.
  apply (@X10_test_accuracy_in_unit_interval Z _ _ Sample.model0 Sample2.loader 3
           Sample2.accuracy0).
  - exact sample_loader_labelled.
  - reflexivity.
  - vm_compute. reflexivity.
Defined.

Lemma X11_test_all_or_nothing_witness :
  0 < 3
  /\ Forall (fun d => exists logits,
               PointNet_forward (Module_eval Sample.model0) (Data_pos d)
                 (Data_edge_index d) (Data_batch d) = ok logits)
       Sample2.loader.
Proof.
  apply (@X11_test_all_or_nothing Z _ _ Sample.model0 Sample2.loader 3
           Sample2.accuracy0).
  vm_compute. reflexivity.
Defined.

Lemma X12_test_order_of_batches_witness :
  snd (test Sample.model0 (rev Sample2.loader) 3) = inr Sample2.accuracy0.
Proof.
  apply (@X12_test_order_of_batches Z _ _ Sample.model0 Sample2.loader
           (rev Sample2.loader) 3 Sample2.accuracy0).
  - apply Permutation_rev.
  - vm_compute. reflexivity.
Defined.

Lemma X13_predict_is_argmax_witness :
  (0 <= Sample2.class0 < Z.of_nat 10)%Z
  /\ exists r,
       PointNet_forward Sample.model0 (Data_pos Sample2.single4)
         (Data_edge_index Sample2.single4) (Data_batch Sample2.single4)
       = ok (mkTensor 10 [r])
       /\ Forall (fun x => sle x (nth (Z.to_nat Sample2.class0) r szero)) r.
Proof.
  apply (@X13_predict_is_argmax Z _ _ _ _ Sample.model0 10 Sample2.single4
           Sample2.class0).
  - exact sample_model0_wf.
  - vm_compute. reflexivity.
Defined.

Lemma X14_predicted_class_is_a_class_name_witness :
  exists name,
    predicted_class Sample.model0 Sample2.class_names Sample2.single4 = ok name
    /\ In name Sample2.class_names.
Proof.
  apply (@X14_predicted_class_is_a_class_name Z _ _ _ _ nat Sample.model0
           Sample2.class_names Sample2.single4 4).
  - exact sample_model0_wf.
  - discriminate.
  - exact sample_pos4_shape.
  - lia.
  - reflexivity.
  - reflexivity.
Defined.
